(** * operation_log.py: permission model, gated action and audit log

    A shallow embedding of [src/operation_log.py].  Python objects are
    records, [set] is [gset], [dict] is [gmap]; methods that mutate the
    log manager, the file system or the console are computations in a
    state-and-exception monad over an explicit [World]. *)

From Stdlib Require Import NArith Ascii String.
From stdpp Require Import base option list gmap sets strings.

Local Open Scope N_scope.
#[local] Set Warnings "-clear-no-such-hyp".

(** ** [class Operation(Enum)] *)

Inductive Operation : Set :=
  | CREATE_USER
  | DELETE_USER
  | EDIT_USER
  | VIEW_REPORTS
  | GENERATE_REPORTS
  | MANAGE_UNIT.

Module Operation.

(** [Operation.X.value] *)
Definition value (o : Operation) : string :=
  match o with
  | CREATE_USER => "create_user"
  | DELETE_USER => "delete_user"
  | EDIT_USER => "edit_user"
  | VIEW_REPORTS => "view_reports"
  | GENERATE_REPORTS => "generate_reports"
  | MANAGE_UNIT => "manage_unit"
  end.

(** The members in definition order. *)
Definition members : list Operation :=
  [CREATE_USER; DELETE_USER; EDIT_USER; VIEW_REPORTS; GENERATE_REPORTS;
   MANAGE_UNIT].

(** [Operation(v)]: lookup of a member by value; [None] stands for the
    [ValueError] the enum raises on an unknown value. *)
Definition of_value (v : string) : option Operation :=
  head (filter (λ o, value o = v) members).

Definition index (o : Operation) : nat :=
  match o with
  | CREATE_USER => 0 | DELETE_USER => 1 | EDIT_USER => 2
  | VIEW_REPORTS => 3 | GENERATE_REPORTS => 4 | MANAGE_UNIT => 5
  end%nat.

End Operation.

#[global] Instance Operation_eq_dec : EqDecision Operation.
Proof. solve_decision. Defined.

#[global] Instance Operation_countable : Countable Operation.
Proof.
  refine (inj_countable' Operation.index
            (λ n, default CREATE_USER (Operation.members !! n)) _).
  by intros [].
Defined.

(** ** [datetime] (naive, as [datetime.now()] returns it) *)

Record datetime : Set := mk_datetime {
  year : N; month : N; day : N;
  hour : N; minute : N; second : N; microsecond : N
}.

#[global] Instance datetime_eq_dec : EqDecision datetime.
Proof. solve_decision. Defined.

Module Datetime.

Definition is_leap (y : N) : bool :=
  (y mod 4 =? 0) && (negb (y mod 100 =? 0) || (y mod 400 =? 0)).

Definition days_in_month (y m : N) : N :=
  match m with
  | 2 => if is_leap y then 29 else 28
  | 4 | 6 | 9 | 11 => 30
  | _ => 31
  end.

(** The range checks of the [datetime] constructor: every datetime
    object of a running program satisfies them. *)
Definition valid (d : datetime) : bool :=
  (1 <=? year d) && (year d <=? 9999) &&
  (1 <=? month d) && (month d <=? 12) &&
  (1 <=? day d) && (day d <=? days_in_month (year d) (month d)) &&
  (hour d <? 24) && (minute d <? 60) && (second d <? 60) &&
  (microsecond d <? 1000000).

(** Comparison of naive datetimes: lexicographic on the fields. *)
Definition fields (d : datetime) : list N :=
  [year d; month d; day d; hour d; minute d; second d; microsecond d].

Fixpoint lex (a b : list N) : comparison :=
  match a, b with
  | [], [] => Eq
  | [], _ :: _ => Lt
  | _ :: _, [] => Gt
  | x :: a', y :: b' =>
      match x ?= y with
      | Eq => lex a' b'
      | c => c
      end
  end.

Definition compare (a b : datetime) : comparison := lex (fields a) (fields b).

(** [a <= b] *)
Definition leb (a b : datetime) : bool :=
  match compare a b with Gt => false | _ => true end.

(** *** Decimal fields of fixed width *)

Definition digit (d : N) : ascii := ascii_of_N (48 + d).

Definition digit_val (c : ascii) : option N :=
  let n := N_of_ascii c in
  if (48 <=? n) && (n <=? 57) then Some (n - 48) else None.

(** ["%0kd" % n] for [n < 10^k]. *)
Fixpoint pad (k : nat) (n : N) : string :=
  match k with
  | O => ""
  | S k' => String (digit (n / 10 ^ N.of_nat k'))
                   (pad k' (n mod 10 ^ N.of_nat k'))
  end.

(** Reads exactly [k] decimal digits off the front of [s]. *)
Fixpoint read_digits (k : nat) (acc : N) (s : string) : option (N * string) :=
  match k with
  | O => Some (acc, s)
  | S k' =>
      match s with
      | String c s' => d ← digit_val c; read_digits k' (acc * 10 + d) s'
      | EmptyString => None
      end
  end.

(** Consumes the character [c]. *)
Definition expect (c : ascii) (s : string) : option string :=
  match s with
  | String c' s' => if decide (c' = c) then Some s' else None
  | EmptyString => None
  end.

(** Consumes any one character (the date/time separator). *)
Definition skip1 (s : string) : option string :=
  match s with
  | String _ s' => Some s'
  | EmptyString => None
  end.

(** [datetime.isoformat()]:
    [YYYY-MM-DDTHH:MM:SS], followed by [.ffffff] when the microsecond
    field is not zero. *)
Definition isoformat (d : datetime) : string :=
  pad 4 (year d) +:+ "-" +:+ pad 2 (month d) +:+ "-" +:+ pad 2 (day d) +:+
  "T" +:+ pad 2 (hour d) +:+ ":" +:+ pad 2 (minute d) +:+ ":" +:+
  pad 2 (second d) +:+
  (if microsecond d =? 0 then "" else "." +:+ pad 6 (microsecond d)).

(** [datetime.fromisoformat(s)] on the two shapes [isoformat] emits for
    a naive datetime, with the fields range-checked as by the
    constructor; [None] stands for its [ValueError].  The library reads
    further texts (a date alone, minute precision, short fractions, UTC
    offsets): the model agrees with it on the texts [isoformat] writes
    and is used on those. *)
Definition fromisoformat (s : string) : option datetime :=
  '(y, s) ← read_digits 4 0 s;
  s ← expect "-" s;
  '(mo, s) ← read_digits 2 0 s;
  s ← expect "-" s;
  '(d, s) ← read_digits 2 0 s;
  s ← skip1 s;
  '(h, s) ← read_digits 2 0 s;
  s ← expect ":" s;
  '(mi, s) ← read_digits 2 0 s;
  s ← expect ":" s;
  '(se, s) ← read_digits 2 0 s;
  '(us, s) ← match s with
              | EmptyString => Some (0, s)
              | _ => s ← expect "." s; read_digits 6 0 s
              end;
  let r := mk_datetime y mo d h mi se us in
  match s with
  | EmptyString => if valid r then Some r else None
  | _ => None
  end.

End Datetime.

(** ** JSON documents, as [json.dump] writes and [json.load] returns them *)

#[local] Unset Elimination Schemes.
Inductive json :=
  | JNull
  | JBool (b : bool)
  | JNum (n : Z)
  | JStr (s : string)
  | JArr (l : list json)
  | JObj (o : gmap string json).
#[local] Set Elimination Schemes.

(** ** Exceptions *)

Inductive exn :=
  | PermissionError (msg : string)
  | FileNotFoundError (path : string)
  | KeyError (key : string)
  | ValueError (msg : string)
  | TypeError (msg : string)
  (** any other error of the operating system that [open] reports *)
  | OSError (msg : string)
  (** the registry error of the specification; no statement of the
      source raises it *)
  | DuplicateKeyError (key : string).

(** [str(e)] *)
Definition str (e : exn) : string :=
  match e with
  | PermissionError msg | ValueError msg | TypeError msg | OSError msg => msg
  | FileNotFoundError path =>
      "[Errno 2] No such file or directory: '" +:+ path +:+ "'"
  | KeyError key | DuplicateKeyError key => "'" +:+ key +:+ "'"
  end.

Inductive outcome (A : Type) :=
  | Returned (a : A)
  | Raised (e : exn).
Arguments Returned {A} a.
Arguments Raised {A} e.

#[global] Instance outcome_ret : MRet outcome := λ A a, Returned a.
#[global] Instance outcome_bind : MBind outcome := λ A B f m,
  match m with
  | Returned a => f a
  | Raised e => Raised e
  end.
#[global] Instance outcome_fmap : FMap outcome := λ A B f m,
  match m with
  | Returned a => Returned (f a)
  | Raised e => Raised e
  end.

(** ** [@dataclass Unit], [@dataclass OperationLog] *)

Module Unit.
Record t := mk { id : string; name : string }.
End Unit.

Module OperationLog.

Record t := mk {
  id : string;
  operator_code : string;
  operator_role : string;
  operation : Operation;
  unit_id : option string;
  timestamp : datetime;
  status : string;
  details : option string
}.

(** [None] is written as [null]. *)
Definition optional (s : option string) : json :=
  match s with
  | Some s => JStr s
  | None => JNull
  end.

Definition to_dict (self : t) : json :=
  JObj (list_to_map [
    ("id", JStr (id self));
    ("operator_code", JStr (operator_code self));
    ("operator_role", JStr (operator_role self));
    ("operation", JStr (Operation.value (operation self)));
    ("unit_id", optional (unit_id self));
    ("timestamp", JStr (Datetime.isoformat (timestamp self)));
    ("status", JStr (status self));
    ("details", optional (details self))
  ]).

End OperationLog.

(** ** The world the program runs in *)

Record LogManager := mk_LogManager {
  log_file_path : string;
  logs : list OperationLog.t
}.

(** What reading finds under a path of the file system: a JSON
    document, or something on which [open(path, 'r')] or [json.load]
    raises (no permission to read, a directory, text that is not JSON).
    A path absent from the map does not exist. *)
Inductive file :=
  | Document (doc : json)
  | Unreadable (e : exn).

Record World := mk_World {
  (** the file system: what each existing path holds *)
  files : gmap string file;
  (** the exception [open(path, 'w')] raises, for each path that cannot
      be written (a missing directory, the empty path, a read-only
      location) *)
  write_faults : string → option exn;
  (** the lines written to [sys.stdout]; [None] when the stream is closed *)
  stdout : option (list string);
  (** the values [uuid.uuid4()] and [datetime.now()] return, call by call *)
  uuids : nat → string;
  uuid_calls : nat;
  clock : nat → datetime;
  clock_reads : nat;
  (** the [LogManager] object the actions hold a reference to *)
  log_manager : LogManager
}.

(** State and exceptions: the state survives a raised exception. *)
Definition M (A : Type) : Type := World → outcome A * World.

#[global] Instance M_ret : MRet M := λ A a w, (Returned a, w).
#[global] Instance M_bind : MBind M := λ A B f m w,
  match m w with
  | (Returned a, w') => f a w'
  | (Raised e, w') => (Raised e, w')
  end.

Definition raise {A} (e : exn) : M A := λ w, (Raised e, w).
Definition lift {A} (m : outcome A) : M A := λ w, (m, w).
Definition gets {A} (f : World → A) : M A := λ w, (Returned (f w), w).
Definition modify (f : World → World) : M unit := λ w, (Returned tt, f w).

(** [try: body  except Exception as e: handler e] *)
Definition try_except {A} (body : M A) (handler : exn → M A) : M A := λ w,
  match body w with
  | (Returned a, w') => (Returned a, w')
  | (Raised e, w') => handler e w'
  end.

Definition set_files (f : gmap string file) (w : World) : World :=
  mk_World f (write_faults w) (stdout w) (uuids w) (uuid_calls w) (clock w)
           (clock_reads w) (log_manager w).
Definition set_stdout (o : option (list string)) (w : World) : World :=
  mk_World (files w) (write_faults w) o (uuids w) (uuid_calls w) (clock w)
           (clock_reads w) (log_manager w).
Definition set_log_manager (lm : LogManager) (w : World) : World :=
  mk_World (files w) (write_faults w) (stdout w) (uuids w) (uuid_calls w)
           (clock w) (clock_reads w) lm.

(** [open(path, 'w')] succeeds. *)
Definition writable (w : World) (path : string) : Prop :=
  write_faults w path = None.

(** [str(uuid.uuid4())] *)
Definition uuid4 : M string := λ w,
  (Returned (uuids w (uuid_calls w)),
   mk_World (files w) (write_faults w) (stdout w) (uuids w) (S (uuid_calls w))
            (clock w) (clock_reads w) (log_manager w)).

(** [datetime.now()] *)
Definition now : M datetime := λ w,
  (Returned (clock w (clock_reads w)),
   mk_World (files w) (write_faults w) (stdout w) (uuids w) (uuid_calls w)
            (clock w) (S (clock_reads w)) (log_manager w)).

(** [print(line)]: writing to a closed stream raises [ValueError]. *)
Definition print (line : string) : M unit := λ w,
  match stdout w with
  | Some out => (Returned tt, set_stdout (Some (out ++ [line])) w)
  | None => (Raised (ValueError "I/O operation on closed file."), w)
  end.

(** [with open(path, 'r') as f: json.load(f)]: a path that does not
    exist raises [FileNotFoundError]; one that cannot be opened or does
    not hold JSON raises its error. *)
Definition read_json (path : string) : M json := λ w,
  match files w !! path with
  | Some (Document doc) => (Returned doc, w)
  | Some (Unreadable e) => (Raised e, w)
  | None => (Raised (FileNotFoundError path), w)
  end.

(** [with open(path, 'w') as f: json.dump(doc, f, indent=2)]: when the
    path cannot be written, [open] raises and no file is touched. *)
Definition write_json (path : string) (doc : json) : M unit := λ w,
  match write_faults w path with
  | Some e => (Raised e, w)
  | None => (Returned tt, set_files (<[path := Document doc]> (files w)) w)
  end.

(** ** [class LogManager] *)

Module LogManager.

(** [log[key]] *)
Definition subscript (log : json) (key : string) : outcome json :=
  match log with
  | JObj o =>
      match o !! key with
      | Some v => Returned v
      | None => Raised (KeyError key)
      end
  | JStr _ => Raised (TypeError "string indices must be integers")
  | JArr _ => Raised (TypeError "list indices must be integers or slices, not str")
  | _ => Raised (TypeError "object is not subscriptable")
  end.

(** The entries of the model carry the types of the dataclass
    annotations.  The code stores [log['id']] and the like unchecked; an
    item holding a value of another JSON type in such a field is outside
    the typed model, which stops there with a [TypeError]: the model
    agrees with the code on the items whose fields have the annotated
    types, which [to_dict] always writes. *)
Definition as_str (v : json) : outcome string :=
  match v with
  | JStr s => Returned s
  | _ => Raised (TypeError "not a str")
  end.

Definition as_optional_str (v : json) : outcome (option string) :=
  match v with
  | JNull => Returned None
  | JStr s => Returned (Some s)
  | _ => Raised (TypeError "not an Optional[str]")
  end.

(** [Operation(v)] *)
Definition as_operation (v : json) : outcome Operation :=
  match v with
  | JStr s =>
      match Operation.of_value s with
      | Some o => Returned o
      | None => Raised (ValueError ("'" +:+ s +:+ "' is not a valid Operation"))
      end
  | _ => Raised (ValueError "not a valid Operation")
  end.

(** [datetime.fromisoformat(v)] *)
Definition as_datetime (v : json) : outcome datetime :=
  match v with
  | JStr s =>
      match Datetime.fromisoformat s with
      | Some d => Returned d
      | None => Raised (ValueError ("Invalid isoformat string: '" +:+ s +:+ "'"))
      end
  | _ => Raised (TypeError "fromisoformat: argument must be str")
  end.

(** The [OperationLog(...)] call of the comprehension; the keyword
    arguments are evaluated in the order written. *)
Definition parse_log (log : json) : outcome OperationLog.t :=
  id ← subscript log "id" ≫= as_str;
  operator_code ← subscript log "operator_code" ≫= as_str;
  operator_role ← subscript log "operator_role" ≫= as_str;
  operation ← subscript log "operation" ≫= as_operation;
  unit_id ← subscript log "unit_id" ≫= as_optional_str;
  timestamp ← subscript log "timestamp" ≫= as_datetime;
  status ← subscript log "status" ≫= as_str;
  details ← subscript log "details" ≫= as_optional_str;
  mret (OperationLog.mk id operator_code operator_role operation unit_id
          timestamp status details).

(** [for log in logs_data]: a list yields its items, a dict its keys,
    a string its characters; nothing else is iterable. *)
Definition iterate (logs_data : json) : outcome (list json) :=
  match logs_data with
  | JArr l => Returned l
  | JObj o => Returned (JStr <$> (map_to_list o).*1)
  | JStr s => Returned ((λ c, JStr (String c "")) <$> list_ascii_of_string s)
  | _ => Raised (TypeError "object is not iterable")
  end.

Fixpoint parse_logs (items : list json) : outcome (list OperationLog.t) :=
  match items with
  | [] => Returned []
  | log :: items' =>
      entry ← parse_log log;
      rest ← parse_logs items';
      mret (entry :: rest)
  end.

(** [self.logs = l] *)
Definition set_logs (l : list OperationLog.t) : M unit :=
  modify (λ w, set_log_manager
                 (mk_LogManager (log_file_path (log_manager w)) l) w).

Definition load_logs : M unit :=
  try_except
    (path ← gets (λ w, log_file_path (log_manager w));
     logs_data ← read_json path;
     l ← lift (iterate logs_data ≫= parse_logs);
     set_logs l)
    (λ e, match e with
          | FileNotFoundError _ => set_logs []
          | _ => raise e
          end).

(** [LogManager(log_file_path)] *)
Definition init (log_file_path : string) : M unit :=
  modify (set_log_manager (mk_LogManager log_file_path []));;
  load_logs.

Definition save_logs : M unit :=
  self ← gets log_manager;
  write_json (log_file_path self) (JArr (OperationLog.to_dict <$> logs self)).

Definition add_log (log : OperationLog.t) : M unit :=
  self ← gets log_manager;
  set_logs (logs self ++ [log]);;
  save_logs.

Definition get_logs_by_operator (self : LogManager) (operator_code : string)
  : list OperationLog.t :=
  filter (λ log, OperationLog.operator_code log = operator_code) (logs self).

Definition get_logs_by_unit (self : LogManager) (unit_id : string)
  : list OperationLog.t :=
  filter (λ log, OperationLog.unit_id log = Some unit_id) (logs self).

Definition get_logs_by_timerange (self : LogManager) (start end_ : datetime)
  : list OperationLog.t :=
  filter (λ log, Datetime.leb start (OperationLog.timestamp log) &&
                 Datetime.leb (OperationLog.timestamp log) end_)
         (logs self).

End LogManager.

(** ** [class Profile] *)

Module Profile.

Record t := mk {
  name : string;
  base_role : string;
  operator_code : string;
  unit_permissions : gmap string (gset Operation);
  global_permissions : gset Operation
}.

(** [Profile(name, base_role, operator_code)] *)
Definition init (name base_role operator_code : string) : t :=
  mk name base_role operator_code ∅ ∅.

Definition set_unit_permissions (self : t) (m : gmap string (gset Operation)) : t :=
  mk (name self) (base_role self) (operator_code self) m
     (global_permissions self).

Definition set_global_permissions (self : t) (s : gset Operation) : t :=
  mk (name self) (base_role self) (operator_code self)
     (unit_permissions self) s.

(** The updated receiver is returned; neither body has a [raise]. *)
Definition add_unit_permission (self : t) (unit_id : string)
    (operation : Operation) : outcome t :=
  let self :=
    if decide (unit_id ∉ dom (unit_permissions self))
    then set_unit_permissions self (<[unit_id := ∅]> (unit_permissions self))
    else self in
  Returned (set_unit_permissions self
              (alter (λ s, s ∪ {[operation]}) unit_id (unit_permissions self))).

Definition add_global_permission (self : t) (operation : Operation) : outcome t :=
  Returned (set_global_permissions self
              (global_permissions self ∪ {[operation]})).

(** Truth value of an [Optional[str]] argument: [None] and the empty
    string are false. *)
Definition truthy (unit_id : option string) : bool :=
  match unit_id with
  | None => false
  | Some EmptyString => false
  | Some (String _ _) => true
  end.

Definition can_perform (self : t) (operation : Operation)
    (unit_id : option string) : bool :=
  if decide (operation ∈ global_permissions self) then true
  else
    match unit_id with
    | Some u =>
        if truthy unit_id && bool_decide (u ∈ dom (unit_permissions self))
        then bool_decide (operation ∈ unit_permissions self !!! u)
        else false
    | None => false
    end.

End Profile.

(** ** [class ProfileManager] *)

Module ProfileManager.

(** The [log_manager] attribute is a reference to the world's log
    manager; no method reads it. *)
Record t := mk {
  profiles : gmap string Profile.t;
  units : gmap string Unit.t
}.

Definition init : t := mk ∅ ∅.

Definition create_profile (self : t) (name base_role operator_code : string)
  : outcome (Profile.t * t) :=
  let profile := Profile.init name base_role operator_code in
  Returned (profile, mk (<[name := profile]> (profiles self)) (units self)).

Definition add_unit (self : t) (unit_id name : string) : outcome (Unit.t * t) :=
  let unit := Unit.mk unit_id name in
  Returned (unit, mk (profiles self) (<[unit_id := unit]> (units self))).

Definition get_profile (self : t) (name : string) : option Profile.t :=
  profiles self !! name.

End ProfileManager.

(** ** [class PermissionedAction(ABC)] and [class GenerateReportAction] *)

Module PermissionedAction.
Section methods.

(** the abstract method *)
Variable required_operation : Operation.

Definition can_execute (profile : Profile.t) (unit_id : option string) : bool :=
  Profile.can_perform profile required_operation unit_id.

Definition log_operation (profile : Profile.t) (unit_id : option string)
    (status : string) (details : option string) : M unit :=
  id ← uuid4;
  timestamp ← now;
  LogManager.add_log
    (OperationLog.mk id (Profile.operator_code profile)
       (Profile.base_role profile) required_operation unit_id timestamp
       status details).

End methods.
End PermissionedAction.

Module GenerateReportAction.

Definition required_operation : Operation := GENERATE_REPORTS.

Definition can_execute := PermissionedAction.can_execute required_operation.
Definition log_operation := PermissionedAction.log_operation required_operation.

(** [f"{unit_id}"] *)
Definition format_unit (unit_id : option string) : string :=
  match unit_id with
  | Some u => u
  | None => "None"
  end.

Definition denied_message : string :=
  "Profile does not have permission to generate reports".

Definition execute (profile : Profile.t) (unit_id : option string) : M unit :=
  try_except
    ((if negb (can_execute profile unit_id)
      then
        log_operation profile unit_id "FAILED" (Some "Insufficient permissions");;
        raise (PermissionError denied_message)
      else mret tt);;
     print ("Generating report for unit " +:+ format_unit unit_id);;
     log_operation profile unit_id "SUCCESS"
       (Some "Report generated successfully"))
    (λ e,
       log_operation profile unit_id "ERROR" (Some (str e));;
       raise e).

End GenerateReportAction.

(** ** [def main()] *)

Module Main.

(** the newline character *)
Definition nl : string := String "010" "".

(** [str(d)], which the f-string applies to [log.timestamp]:
    [d.isoformat(sep=' ')]. *)
Definition str_datetime (d : datetime) : string :=
  Datetime.pad 4 (year d) +:+ "-" +:+ Datetime.pad 2 (month d) +:+ "-" +:+
  Datetime.pad 2 (day d) +:+ " " +:+ Datetime.pad 2 (hour d) +:+ ":" +:+
  Datetime.pad 2 (minute d) +:+ ":" +:+ Datetime.pad 2 (second d) +:+
  (if microsecond d =? 0 then "" else "." +:+ Datetime.pad 6 (microsecond d)).

(** [f"{x}"] for an [Optional[str]] *)
Definition str_optional (x : option string) : string :=
  match x with
  | Some s => s
  | None => "None"
  end.

(** The triple-quoted f-string printed for one entry. *)
Definition show_log (log : OperationLog.t) : string :=
  nl +:+
  "Operation: " +:+ Operation.value (OperationLog.operation log) +:+ nl +:+
  "Operator: " +:+ OperationLog.operator_code log +:+ " (" +:+
    OperationLog.operator_role log +:+ ")" +:+ nl +:+
  "Unit: " +:+ str_optional (OperationLog.unit_id log) +:+ nl +:+
  "Time: " +:+ str_datetime (OperationLog.timestamp log) +:+ nl +:+
  "Status: " +:+ OperationLog.status log +:+ nl +:+
  "Details: " +:+ str_optional (OperationLog.details log) +:+ nl +:+
  "        ".

(** [l[-5:]] *)
Definition last5 {A} (l : list A) : list A := drop (length l - 5) l.

(** [for x in l: body x] *)
Fixpoint for_each {A} (l : list A) (body : A → M unit) : M unit :=
  match l with
  | [] => mret tt
  | x :: l' => body x;; for_each l' body
  end.

(** [try: body  except PermissionError as e: handler e] *)
Definition try_except_PermissionError {A} (body : M A) (handler : exn → M A)
  : M A :=
  try_except body
    (λ e, match e with
          | PermissionError _ => handler e
          | _ => raise e
          end).

(** The profiles are carried in the local variables [admin1], [admin2],
    which is where [execute] takes them from. *)
Definition main : M unit :=
  LogManager.init "operation_logs.json";;
  let profile_manager := ProfileManager.init in
  '(unit1, profile_manager) ←
    lift (ProfileManager.add_unit profile_manager "UNIT1" "Marketing");
  '(unit2, profile_manager) ←
    lift (ProfileManager.add_unit profile_manager "UNIT2" "Sales");
  '(admin1, profile_manager) ←
    lift (ProfileManager.create_profile profile_manager
            "admin1" "administrator" "ADM001");
  admin1 ← lift (Profile.add_unit_permission admin1 "UNIT1" GENERATE_REPORTS);
  admin1 ← lift (Profile.add_unit_permission admin1 "UNIT1" VIEW_REPORTS);
  '(admin2, profile_manager) ←
    lift (ProfileManager.create_profile profile_manager
            "admin2" "administrator" "ADM002");
  admin2 ← lift (Profile.add_unit_permission admin2 "UNIT1" VIEW_REPORTS);
  try_except_PermissionError
    (GenerateReportAction.execute admin1 (Some "UNIT1");;
     GenerateReportAction.execute admin2 (Some "UNIT1"))
    (λ e, print ("Permission denied: " +:+ str e));;
  print (nl +:+ "Recent Operations:");;
  recent ← gets (λ w, last5 (logs (log_manager w)));
  for_each recent (λ log, print (show_log log)).

End Main.

(** ** The objects of [main] and of the scenarios *)

Module Demo.

(** [admin1] after its two unit grants. *)
Definition admin1 : Profile.t :=
  Profile.mk "admin1" "administrator" "ADM001"
    {[ "UNIT1" := {[ GENERATE_REPORTS; VIEW_REPORTS ]} ]} ∅.

(** [admin2] after its unit grant. *)
Definition admin2 : Profile.t :=
  Profile.mk "admin2" "administrator" "ADM002"
    {[ "UNIT1" := {[ VIEW_REPORTS ]} ]} ∅.

(** A profile granted [GENERATE_REPORTS] for the unit with the empty id. *)
Definition nameless_unit_operator : Profile.t :=
  Profile.mk "op" "operator" "OP001" {[ "" := {[ GENERATE_REPORTS ]} ]} ∅.

(** The registry of [main] after its grants: it holds the profile
    objects themselves, so it shows them as granted. *)
Definition registry : ProfileManager.t :=
  ProfileManager.mk
    {[ "admin1" := admin1; "admin2" := admin2 ]}
    {[ "UNIT1" := Unit.mk "UNIT1" "Marketing";
       "UNIT2" := Unit.mk "UNIT2" "Sales" ]}.

Definition at_second (s : N) : datetime := mk_datetime 2024 1 1 0 0 s 0.

(** A fresh process: no log file, an open console, a clock that
    advances by one second per reading. *)
Definition world : World :=
  mk_World ∅ (λ _, None) (Some [])
    (λ n, "uuid-" +:+ Datetime.pad 4 (N.of_nat n)) 0
    (λ n, at_second (N.of_nat n)) 0
    (mk_LogManager "operation_logs.json" []).

(** The same process started with a log path whose directory does not
    exist: [open(path, 'w')] raises [FileNotFoundError]. *)
Definition world_without_log_directory : World :=
  mk_World ∅
    (λ path, if decide (path = "audit/operation_logs.json")
             then Some (FileNotFoundError path) else None)
    (Some [])
    (λ n, "uuid-" +:+ Datetime.pad 4 (N.of_nat n)) 0
    (λ n, at_second (N.of_nat n)) 0
    (mk_LogManager "audit/operation_logs.json" []).


Definition entry (n : N) : OperationLog.t :=
  OperationLog.mk ("uuid-" +:+ Datetime.pad 4 n) "ADM001" "administrator"
    GENERATE_REPORTS (Some "UNIT1") (at_second n) "SUCCESS"
    (Some "Report generated successfully").

End Demo.

(** * Properties *)

(** ** The decision rule *)

Section decision.

Implicit Types (p : Profile.t) (o : Operation) (u : option string).

Lemma truthy_Some (s : string) : Profile.truthy (Some s) = true ↔ s ≠ "".
Proof. destruct s; simpl; split; congruence. Qed.

(** What [can_perform] computes, as a proposition. *)
Lemma can_perform_true p o u :
  Profile.can_perform p o u = true ↔
    o ∈ Profile.global_permissions p ∨
    ∃ s S, u = Some s ∧ s ≠ "" ∧
           Profile.unit_permissions p !! s = Some S ∧ o ∈ S.
Proof.
  unfold Profile.can_perform. case_decide as Hg; [naive_solver|].
  destruct u as [s|]; [|naive_solver].
  destruct (Profile.truthy (Some s)) eqn:Ht; simpl.
  - apply truthy_Some in Ht. case_bool_decide as Hd; simpl.
    + apply elem_of_dom in Hd as [S HS].
      rewrite (lookup_total_correct _ _ _ HS), bool_decide_eq_true.
      naive_solver.
    + apply not_elem_of_dom in Hd. naive_solver.
  - split; [done|]. intros [?|(s' & S & [= <-] & Hs & _)]; [done|].
    apply truthy_Some in Hs. congruence.
Qed.

(** The decision rule in the words of the specification: a global
    grant, or a unit that is supplied, is a key of the unit mapping and
    whose set holds the operation. *)
Definition decide_as_specified p o u : Prop :=
  o ∈ Profile.global_permissions p ∨
  ∃ s S, u = Some s ∧ Profile.unit_permissions p !! s = Some S ∧ o ∈ S.

(** [o] is granted to [p] for the unit [U] and nowhere else. *)
Definition granted_only_for p o (U : string) : Prop :=
  (o ∉ Profile.global_permissions p) ∧
  (∃ S, Profile.unit_permissions p !! U = Some S ∧ o ∈ S) ∧
  ∀ U' S', U' ≠ U → Profile.unit_permissions p !! U' = Some S' → o ∉ S'.

(** C3, as stated, fails: for a profile whose only grant is for the unit
    with the empty id, the specified rule holds of that unit and
    [can_perform] is false, so the two are not equivalent and the grant
    does not decide true for its own unit. *)
Lemma can_perform_empty_unit_id_denied :
  ¬ (Profile.can_perform Demo.nameless_unit_operator GENERATE_REPORTS (Some "")
       = true ↔
     decide_as_specified Demo.nameless_unit_operator GENERATE_REPORTS (Some "")) ∧
  granted_only_for Demo.nameless_unit_operator GENERATE_REPORTS "" ∧
  Profile.can_perform Demo.nameless_unit_operator GENERATE_REPORTS (Some "")
    ≠ true.
Proof.
  split_and!; [|split_and!|done].
  - intros [_ H]. enough (false = true) by done. apply H.
    right. exists "", {[GENERATE_REPORTS]}. split_and!; [done|done|set_solver].
  - set_solver.
  - exists {[GENERATE_REPORTS]}. split; [done|set_solver].
  - intros U' S' HU'. simpl. by rewrite lookup_singleton_ne.
Qed.

(** C3 (amended): [can_perform p o u] is true iff [o] is granted
    globally, or [u] is supplied, is not the empty string, is a key of
    the unit mapping and its set holds [o].  Hence a global grant
    decides true for every unit argument, and a grant held only for a
    unit [U] with a non-empty id decides true for [U] and false for
    every other unit and for no unit. *)
Theorem can_perform_decision p o :
  (∀ u, Profile.can_perform p o u = true ↔
          o ∈ Profile.global_permissions p ∨
          ∃ s S, u = Some s ∧ s ≠ "" ∧
                 Profile.unit_permissions p !! s = Some S ∧ o ∈ S) ∧
  (o ∈ Profile.global_permissions p →
     ∀ u, Profile.can_perform p o u = true) ∧
  (∀ U, U ≠ "" → granted_only_for p o U →
     Profile.can_perform p o (Some U) = true ∧
     Profile.can_perform p o None = false ∧
     ∀ U', U' ≠ U → Profile.can_perform p o (Some U') = false).
Proof.
  split_and!.
  - intros u. apply can_perform_true.
  - intros Hg u. apply can_perform_true. by left.
  - intros U HU (Hg & (S & HS & Ho) & Hothers). split_and!.
    + apply can_perform_true. right. by exists U, S.
    + apply not_true_is_false. rewrite can_perform_true.
      intros [?|(? & ? & ? & _)]; done.
    + intros U' HU'. apply not_true_is_false. rewrite can_perform_true.
      intros [?|(s & S' & [= <-] & _ & HS' & Ho')]; [done|].
      by apply (Hothers U' S').
Qed.

Lemma can_perform_decision_witness :
  Profile.can_perform Demo.admin1 GENERATE_REPORTS (Some "UNIT1") = true ∧
  Profile.can_perform Demo.admin1 GENERATE_REPORTS None = false ∧
  ∀ U', U' ≠ "UNIT1" →
    Profile.can_perform Demo.admin1 GENERATE_REPORTS (Some U') = false.
Proof.
  destruct (can_perform_decision Demo.admin1 GENERATE_REPORTS) as (_ & _ & H).
  apply (H "UNIT1"); [done|].
  split_and!.
  - set_solver.
  - exists {[GENERATE_REPORTS; VIEW_REPORTS]}. split; [done|set_solver].
  - intros U' S' HU'. simpl. by rewrite lookup_singleton_ne.
Defined.

(** C9: with the empty string as unit id, [can_perform] is true iff
    the operation is granted globally; a grant stored under the key
    [""] does not count. *)
Theorem can_perform_empty_unit_id p o :
  (Profile.can_perform p o (Some "") = true ↔
     o ∈ Profile.global_permissions p) ∧
  Profile.can_perform p o (Some "") = Profile.can_perform p o None ∧
  (∃ S, Profile.unit_permissions Demo.nameless_unit_operator !! "" = Some S ∧
        GENERATE_REPORTS ∈ S) ∧
  Profile.can_perform Demo.nameless_unit_operator GENERATE_REPORTS (Some "")
    = false.
Proof.
  split_and!.
  - rewrite can_perform_true. split; [|by left].
    intros [?|(s & S & [= <-] & ? & _)]; done.
  - unfold Profile.can_perform. by case_decide.
  - exists {[GENERATE_REPORTS]}. split; [done|set_solver].
  - reflexivity.
Qed.

End decision.

(** ** Granting *)

Section granting.

Implicit Types (p : Profile.t) (o : Operation) (u : option string).

(** The number of entries of a permission set equal to [o]. *)
Definition entries_for o (S : gset Operation) : nat :=
  length (filter (o =.) (elements S)).

Lemma entries_for_member o (S : gset Operation) :
  o ∈ S → entries_for o S = 1%nat.
Proof.
  intros Ho. unfold entries_for.
  assert (NoDup (elements S)) as Hnd by apply NoDup_elements.
  apply elem_of_elements in Ho.
  induction Hnd as [|x l Hx Hnd IH]; [by apply elem_of_nil in Ho|].
  rewrite filter_cons. apply elem_of_cons in Ho as [->|Ho].
  - rewrite decide_True by done. simpl. f_equal.
    apply length_zero_iff_nil, elem_of_nil_inv.
    intros y [<- Hy]%list_elem_of_filter. done.
  - rewrite decide_False; [by apply IH|]. by intros ->.
Qed.

Lemma add_unit_permission_lookup p (unit_id : string) o :
  ∃ p', Profile.add_unit_permission p unit_id o = Returned p' ∧
        Profile.global_permissions p' = Profile.global_permissions p ∧
        Profile.unit_permissions p' =
          <[unit_id := default ∅ (Profile.unit_permissions p !! unit_id) ∪ {[o]}]>
            (Profile.unit_permissions p).
Proof.
  unfold Profile.add_unit_permission. eexists. split; [done|].
  case_decide as Hd; simpl; (split; [done|]).
  - apply not_elem_of_dom in Hd. rewrite Hd. simpl.
    apply map_eq. intros k. destruct (decide (k = unit_id)) as [->|].
    + by rewrite lookup_alter_eq, !lookup_insert_eq.
    + by rewrite lookup_alter_ne, !lookup_insert_ne.
  - apply elem_of_dom in Hd as [S HS]. rewrite HS. simpl.
    apply map_eq. intros k. destruct (decide (k = unit_id)) as [->|].
    + by rewrite lookup_alter_eq, lookup_insert_eq, HS.
    + by rewrite lookup_alter_ne, lookup_insert_ne.
Qed.

Lemma profile_eq p p' :
  Profile.name p = Profile.name p' →
  Profile.base_role p = Profile.base_role p' →
  Profile.operator_code p = Profile.operator_code p' →
  Profile.unit_permissions p = Profile.unit_permissions p' →
  Profile.global_permissions p = Profile.global_permissions p' →
  p = p'.
Proof. destruct p, p'; simpl; congruence. Qed.

(** C5: both grants always return; granting the operation a second
    time changes nothing, and the set granted into then holds exactly
    one entry for the operation.  A unit that had no set gets one
    holding just the operation. *)
Theorem grant_idempotent p (unit_id : string) o :
  (∃ p1, Profile.add_global_permission p o = Returned p1 ∧
         Profile.add_global_permission p1 o = Returned p1 ∧
         entries_for o (Profile.global_permissions p1) = 1%nat) ∧
  (∃ p1 S, Profile.add_unit_permission p unit_id o = Returned p1 ∧
           Profile.add_unit_permission p1 unit_id o = Returned p1 ∧
           Profile.unit_permissions p1 !! unit_id = Some S ∧
           entries_for o S = 1%nat ∧
           (Profile.unit_permissions p !! unit_id = None → S = {[o]})).
Proof.
  split.
  - eexists. split; [done|]. split.
    + unfold Profile.add_global_permission. f_equal.
      apply profile_eq; simpl; try done. set_solver.
    + apply entries_for_member. simpl. set_solver.
  - destruct (add_unit_permission_lookup p unit_id o) as (p1 & H1 & Hg1 & Hu1).
    destruct (add_unit_permission_lookup p1 unit_id o) as (p2 & H2 & Hg2 & Hu2).
    exists p1, (default ∅ (Profile.unit_permissions p !! unit_id) ∪ {[o]}).
    split_and!.
    + done.
    + rewrite H2. f_equal.
      assert (Profile.unit_permissions p2 = Profile.unit_permissions p1) as Hu.
      { rewrite Hu2, Hu1, lookup_insert_eq. simpl.
        rewrite insert_insert_eq. f_equal. set_solver. }
      unfold Profile.add_unit_permission in H1, H2.
      injection H1 as <-. injection H2 as <-.
      apply profile_eq; try done; by repeat case_decide.
    + by rewrite Hu1, lookup_insert_eq.
    + apply entries_for_member. set_solver.
    + intros ->. simpl. set_solver.
Qed.

(** C10: a decision that is true stays true after any further grant,
    global or for any unit. *)
Theorem grant_never_revokes p o u o' (unit_id' : string) :
  Profile.can_perform p o u = true →
  (∃ p', Profile.add_global_permission p o' = Returned p' ∧
         Profile.can_perform p' o u = true) ∧
  (∃ p', Profile.add_unit_permission p unit_id' o' = Returned p' ∧
         Profile.can_perform p' o u = true).
Proof.
  intros [Hg|(s & S & -> & Hs & HS & Ho)]%can_perform_true; split.
  - eexists. split; [done|]. apply can_perform_true. left. simpl. set_solver.
  - destruct (add_unit_permission_lookup p unit_id' o') as (p' & H' & Hg' & _).
    exists p'. split; [done|]. apply can_perform_true. left. by rewrite Hg'.
  - eexists. split; [done|]. apply can_perform_true. right.
    by exists s, S.
  - destruct (add_unit_permission_lookup p unit_id' o') as (p' & H' & _ & Hu').
    exists p'. split; [done|]. apply can_perform_true. right.
    destruct (decide (s = unit_id')) as [->|Hne].
    + eexists unit_id', _. split_and!; [done|done| |].
      * rewrite Hu'. apply lookup_insert_eq.
      * rewrite HS. simpl. set_solver.
    + exists s, S. split_and!; try done.
      rewrite Hu'. by rewrite lookup_insert_ne.
Qed.

Lemma grant_never_revokes_witness :
  (∃ p', Profile.add_global_permission Demo.admin1 MANAGE_UNIT = Returned p' ∧
         Profile.can_perform p' GENERATE_REPORTS (Some "UNIT1") = true) ∧
  (∃ p', Profile.add_unit_permission Demo.admin1 "UNIT1" MANAGE_UNIT = Returned p' ∧
         Profile.can_perform p' GENERATE_REPORTS (Some "UNIT1") = true).
Proof.
  apply (grant_never_revokes Demo.admin1 GENERATE_REPORTS (Some "UNIT1")
           MANAGE_UNIT "UNIT1").
  reflexivity.
Defined.

End granting.

(** ** The registry *)

Section registry.

Implicit Types (self : ProfileManager.t).

(** C4, as stated, fails: creating [admin1] again, and adding [UNIT1]
    again, return normally on the registry of [main]; neither call
    raises a [DuplicateKeyError]. *)
Lemma create_duplicate_returns :
  is_Some (ProfileManager.profiles Demo.registry !! "admin1") ∧
  is_Some (ProfileManager.units Demo.registry !! "UNIT1") ∧
  (¬ ∃ k, ProfileManager.create_profile Demo.registry "admin1" "auditor" "AUD001"
            = Raised (DuplicateKeyError k)) ∧
  (¬ ∃ k, ProfileManager.add_unit Demo.registry "UNIT1" "Finance"
            = Raised (DuplicateKeyError k)).
Proof.
  split_and!; [by eexists|by eexists| |]; by intros [k ?].
Qed.

(** C4 (amended): [create_profile] and [add_unit] always return, also
    when the key exists: the registry then maps the key to the newly
    built profile (with no grants) or unit, every other key is as
    before, and the other collection is untouched. *)
Theorem create_replaces_existing self (key a b : string) :
  (∃ self',
     ProfileManager.create_profile self key a b
       = Returned (Profile.init key a b, self') ∧
     ProfileManager.get_profile self' key = Some (Profile.init key a b) ∧
     (∀ k, k ≠ key →
        ProfileManager.get_profile self' k = ProfileManager.get_profile self k) ∧
     ProfileManager.units self' = ProfileManager.units self) ∧
  (∃ self',
     ProfileManager.add_unit self key a = Returned (Unit.mk key a, self') ∧
     ProfileManager.units self' !! key = Some (Unit.mk key a) ∧
     (∀ k, k ≠ key →
        ProfileManager.units self' !! k = ProfileManager.units self !! k) ∧
     ProfileManager.profiles self' = ProfileManager.profiles self).
Proof.
  split; eexists; (split; [reflexivity|]); unfold ProfileManager.get_profile;
    simpl; split_and!; try done.
  - apply lookup_insert_eq.
  - intros k Hk. by rewrite lookup_insert_ne.
  - apply lookup_insert_eq.
  - intros k Hk. by rewrite lookup_insert_ne.
Qed.

Lemma create_replaces_existing_witness :
  ∃ self',
    ProfileManager.create_profile Demo.registry "admin1" "auditor" "AUD001"
      = Returned (Profile.init "admin1" "auditor" "AUD001", self') ∧
    ProfileManager.get_profile self' "admin1"
      = Some (Profile.init "admin1" "auditor" "AUD001") ∧
    ProfileManager.get_profile self' "admin2" = Some Demo.admin2.
Proof.
  destruct (create_replaces_existing Demo.registry "admin1" "auditor" "AUD001")
    as [(self' & Hc & Hnew & Hothers & _) _].
  exists self'. split_and!; [done|done|].
  rewrite (Hothers "admin2"); [|done].
  unfold ProfileManager.get_profile. simpl.
  rewrite lookup_insert_ne; [|done]. apply lookup_insert_eq.
Defined.

End registry.

(** ** Queries over the log *)

Section queries.

Lemma lex_refl (a : list N) : Datetime.lex a a = Eq.
Proof. induction a as [|x a IH]; simpl; [done|]. by rewrite N.compare_refl. Qed.

Lemma leb_refl (t : datetime) : Datetime.leb t t = true.
Proof. unfold Datetime.leb, Datetime.compare. by rewrite lex_refl. Qed.

(** The timestamp lies in the closed interval. *)
Definition in_range (start end_ : datetime) (log : OperationLog.t) : Prop :=
  Datetime.leb start (OperationLog.timestamp log) = true ∧
  Datetime.leb (OperationLog.timestamp log) end_ = true.

Lemma in_range_filter start end_ log :
  Is_true (Datetime.leb start (OperationLog.timestamp log) &&
           Datetime.leb (OperationLog.timestamp log) end_)
  ↔ in_range start end_ log.
Proof.
  unfold in_range. rewrite andb_True, !Is_true_true. done.
Qed.

Lemma sublist_filter_all {A} (P : A → Prop) `{!∀ x, Decision (P x)}
    (r l : list A) :
  r `sublist_of` l → Forall P r → r `sublist_of` filter P l.
Proof.
  induction 1 as [|x r l _ IH|x r l _ IH]; intros HP.
  - done.
  - apply Forall_cons in HP as [Hx HP].
    rewrite filter_cons_True by done. constructor. by apply IH.
  - rewrite filter_cons. case_decide; [constructor|]; by apply IH.
Qed.

(** C7: the result is a selection of the stored entries in their
    stored order, every selected entry lies in the closed interval
    [start, end], and no in-range selection of the log holds more;
    an entry stamped exactly [start] or [end] is selected.  Of three
    entries at seconds 0, 1, 2 the range [0, 1] selects the first two.
    The method is a function of the manager: the log is as before. *)
Theorem timerange_selects_inclusive (self : LogManager) (start end_ : datetime) :
  let r := LogManager.get_logs_by_timerange self start end_ in
  r `sublist_of` logs self ∧
  Forall (in_range start end_) r ∧
  (∀ r', r' `sublist_of` logs self → Forall (in_range start end_) r' →
         r' `sublist_of` r) ∧
  (∀ log, log ∈ r ↔ log ∈ logs self ∧ in_range start end_ log) ∧
  (∀ log, log ∈ logs self → Datetime.leb start end_ = true →
          OperationLog.timestamp log = start ∨
          OperationLog.timestamp log = end_ → log ∈ r) ∧
  LogManager.get_logs_by_timerange
    (mk_LogManager "operation_logs.json"
       [Demo.entry 0; Demo.entry 1; Demo.entry 2])
    (Demo.at_second 0) (Demo.at_second 1)
  = [Demo.entry 0; Demo.entry 1].
Proof.
  intros r. subst r. unfold LogManager.get_logs_by_timerange.
  assert (∀ log, log ∈ filter
            (λ log, Datetime.leb start (OperationLog.timestamp log) &&
                    Datetime.leb (OperationLog.timestamp log) end_)
            (logs self) ↔ log ∈ logs self ∧ in_range start end_ log) as Hmem.
  { intros log. rewrite list_elem_of_filter, in_range_filter. tauto. }
  split_and!.
  - apply sublist_filter.
  - apply Forall_forall. intros log Hlog. by apply Hmem in Hlog as [_ ?].
  - intros r' Hsub Hall. apply sublist_filter_all; [done|].
    eapply Forall_impl; [exact Hall|]. intros log. apply in_range_filter.
  - done.
  - intros log Hlog Hse [Ht|Ht]; apply Hmem; (split; [done|]);
      unfold in_range; rewrite Ht; by rewrite leb_refl.
  - reflexivity.
Qed.

End queries.

(** ** The gated action *)

Section gate.

Implicit Types (w : World) (profile : Profile.t) (unit_id : option string).

(** The entry [log_operation] builds in the world [w]. *)
Definition entry_logged w profile unit_id (status : string)
    (details : option string) : OperationLog.t :=
  OperationLog.mk (uuids w (uuid_calls w)) (Profile.operator_code profile)
    (Profile.base_role profile) GENERATE_REPORTS unit_id
    (clock w (clock_reads w)) status details.

(** The exception the write of the log file raises in [w], if any. *)
Definition log_write_fault w : option exn :=
  write_faults w (log_file_path (log_manager w)).

(** The world [log_operation] leaves: one id drawn, the clock read
    once, the entry appended, and the whole log written to the file
    when the file can be written. *)
Definition after_logging w profile unit_id (status : string)
    (details : option string) : World :=
  let l := logs (log_manager w)
           ++ [entry_logged w profile unit_id status details] in
  mk_World
    (match log_write_fault w with
     | None => <[log_file_path (log_manager w)
                 := Document (JArr (OperationLog.to_dict <$> l))]> (files w)
     | Some _ => files w
     end)
    (write_faults w) (stdout w) (uuids w) (S (uuid_calls w)) (clock w)
    (S (clock_reads w)) (mk_LogManager (log_file_path (log_manager w)) l).

(** [log_operation] returns when the file is written and raises the
    write's exception otherwise; the entry is in the log either way. *)
Lemma log_operation_run w profile unit_id status details :
  GenerateReportAction.log_operation profile unit_id status details w
  = (match log_write_fault w with
     | None => Returned tt
     | Some e => Raised e
     end,
     after_logging w profile unit_id status details).
Proof.
  unfold GenerateReportAction.log_operation, PermissionedAction.log_operation,
    after_logging, log_write_fault, uuid4, now,
    LogManager.add_log, LogManager.set_logs, LogManager.save_logs, gets,
    modify, write_json.
  cbv beta iota delta [mbind M_bind].
  cbn [log_manager log_file_path logs write_faults files stdout uuids
       uuid_calls clock clock_reads set_log_manager set_files].
  by destruct (write_faults w (log_file_path (log_manager w))).
Qed.

Lemma after_logging_fault w profile unit_id status details :
  log_write_fault (after_logging w profile unit_id status details)
  = log_write_fault w.
Proof. reflexivity. Qed.

Lemma after_logging_logs w profile unit_id status details :
  logs (log_manager (after_logging w profile unit_id status details))
  = logs (log_manager w) ++ [entry_logged w profile unit_id status details].
Proof. reflexivity. Qed.

Lemma after_logging_stdout w profile unit_id status details :
  stdout (after_logging w profile unit_id status details) = stdout w.
Proof. reflexivity. Qed.

(** The exception a denied call ends with: the gate's
    [PermissionError], or the write's exception when the log file cannot
    be written. *)
Definition denial w : exn :=
  match log_write_fault w with
  | None => PermissionError GenerateReportAction.denied_message
  | Some e => e
  end.

(** The denied path, step by step. *)
Lemma execute_denied w profile unit_id :
  GenerateReportAction.can_execute profile unit_id = false →
  let w1 := after_logging w profile unit_id "FAILED"
              (Some "Insufficient permissions") in
  GenerateReportAction.execute profile unit_id w
  = (Raised (denial w),
     after_logging w1 profile unit_id "ERROR" (Some (str (denial w)))).
Proof.
  intros Hno. unfold GenerateReportAction.execute, try_except.
  rewrite Hno. cbn [negb]. unfold mbind at 1 2 3, M_bind at 1 2 3.
  rewrite log_operation_run. unfold denial.
  destruct (log_write_fault w) as [e|] eqn:Hf.
  - unfold mbind, M_bind. rewrite log_operation_run, after_logging_fault, Hf.
    reflexivity.
  - unfold raise, mbind, M_bind.
    rewrite log_operation_run, after_logging_fault, Hf. reflexivity.
Qed.

(** The permitted path with an open console. *)
Lemma execute_allowed w profile unit_id (out : list string) :
  GenerateReportAction.can_execute profile unit_id = true →
  stdout w = Some out →
  let line := "Generating report for unit "
              +:+ GenerateReportAction.format_unit unit_id in
  let w1 := after_logging (set_stdout (Some (out ++ [line])) w) profile unit_id
              "SUCCESS" (Some "Report generated successfully") in
  GenerateReportAction.execute profile unit_id w
  = match log_write_fault w with
    | None => (Returned tt, w1)
    | Some e =>
        (Raised e, after_logging w1 profile unit_id "ERROR" (Some (str e)))
    end.
Proof.
  intros Hyes Hout. unfold GenerateReportAction.execute, try_except.
  rewrite Hyes. cbn [negb]. unfold mbind, M_bind, mret, M_ret, print.
  rewrite Hout, log_operation_run.
  change (log_write_fault (set_stdout _ w)) with (log_write_fault w).
  destruct (log_write_fault w) as [e|] eqn:Hf; [|done].
  rewrite log_operation_run, after_logging_fault.
  change (log_write_fault (set_stdout _ w)) with (log_write_fault w).
  by rewrite Hf.
Qed.

(** The fault of the body when the console is closed. *)
Definition body_fault : exn := ValueError "I/O operation on closed file.".

(** The permitted path when the body faults (the console is closed). *)
Lemma execute_body_fault w profile unit_id :
  GenerateReportAction.can_execute profile unit_id = true →
  stdout w = None →
  GenerateReportAction.execute profile unit_id w
  = (Raised (match log_write_fault w with
             | None => body_fault
             | Some e => e
             end),
     after_logging w profile unit_id "ERROR" (Some (str body_fault))).
Proof.
  intros Hyes Hout. unfold GenerateReportAction.execute, try_except.
  rewrite Hyes. cbn [negb]. unfold mbind, M_bind, mret, M_ret, print.
  rewrite Hout, log_operation_run.
  by destruct (log_write_fault w).
Qed.

(** The number of entries [execute] adds to the log. *)
Definition entries_added profile unit_id w : Z :=
  Z.of_nat (length (logs (log_manager
                            (GenerateReportAction.execute profile unit_id w).2)))
  - Z.of_nat (length (logs (log_manager w))).

(** On the permitted paths, success or body fault, one entry is added
    when the log file can be written. *)
Lemma execute_allowed_adds_one w profile unit_id :
  GenerateReportAction.can_execute profile unit_id = true →
  writable w (log_file_path (log_manager w)) →
  entries_added profile unit_id w = 1%Z.
Proof.
  intros Hyes Hw. unfold entries_added.
  destruct (stdout w) as [out|] eqn:Hout.
  - rewrite (execute_allowed _ _ _ out Hyes Hout).
    unfold log_write_fault. rewrite Hw. simpl.
    rewrite length_app. simpl. lia.
  - rewrite (execute_body_fault _ _ _ Hyes Hout). simpl.
    rewrite length_app. simpl. lia.
Qed.

(** C1 fails on the denied path: for [admin2] on [UNIT1], in every
    world, [execute] adds two entries, the FAILED one and then an ERROR
    one written by the handler that catches the gate's own
    [PermissionError]. *)
Theorem execute_denied_adds_two w :
  GenerateReportAction.can_execute Demo.admin2 (Some "UNIT1") = false ∧
  entries_added Demo.admin2 (Some "UNIT1") w = 2%Z ∧
  OperationLog.status <$>
    drop (length (logs (log_manager w)))
      (logs (log_manager
               (GenerateReportAction.execute Demo.admin2 (Some "UNIT1") w).2))
  = ["FAILED"; "ERROR"].
Proof.
  assert (GenerateReportAction.can_execute Demo.admin2 (Some "UNIT1") = false)
    as Hno by reflexivity.
  split_and!; [done| |].
  - unfold entries_added. rewrite (execute_denied _ _ _ Hno). simpl.
    rewrite !length_app. simpl. lia.
  - rewrite (execute_denied _ _ _ Hno). simpl.
    rewrite <- app_assoc, drop_app_length. reflexivity.
Qed.

(** C2, as stated, fails when the log file cannot be written: [admin2]
    is denied on [UNIT1], and in a world whose log directory does not
    exist [execute] ends with the [FileNotFoundError] of the write, not
    with a [PermissionError]. *)
Lemma execute_denied_unwritable_store :
  Profile.can_perform Demo.admin2 GENERATE_REPORTS (Some "UNIT1") = false ∧
  (GenerateReportAction.execute Demo.admin2 (Some "UNIT1")
     Demo.world_without_log_directory).1
  = Raised (FileNotFoundError "audit/operation_logs.json") ∧
  ¬ ∃ msg,
      (GenerateReportAction.execute Demo.admin2 (Some "UNIT1")
         Demo.world_without_log_directory).1
      = Raised (PermissionError msg).
Proof.
  split_and!; [reflexivity|reflexivity|].
  intros [msg H]. vm_compute in H. discriminate H.
Qed.

(** C2 (amended): when the decision is false, the entry [execute]
    appends right after the entries already stored has status FAILED and
    details "Insufficient permissions" (and the profile's codes, the
    required operation and the unit), the entries already stored are
    untouched, and the console, which only the body writes to, is as
    before the call; when the log file can be written, [execute] then
    raises the [PermissionError]. *)
Theorem execute_denied_logs_failed w profile unit_id :
  Profile.can_perform profile GENERATE_REPORTS unit_id = false →
  let r := GenerateReportAction.execute profile unit_id w in
  (writable w (log_file_path (log_manager w)) →
   r.1 = Raised (PermissionError GenerateReportAction.denied_message)) ∧
  logs (log_manager r.2) !! length (logs (log_manager w))
  = Some (OperationLog.mk (uuids w (uuid_calls w))
            (Profile.operator_code profile) (Profile.base_role profile)
            GENERATE_REPORTS unit_id (clock w (clock_reads w))
            "FAILED" (Some "Insufficient permissions")) ∧
  take (length (logs (log_manager w))) (logs (log_manager r.2))
  = logs (log_manager w) ∧
  stdout r.2 = stdout w.
Proof.
  intros Hno r. subst r. rewrite (execute_denied w profile unit_id Hno).
  simpl. split_and!; [| | |done].
  - intros Hw. unfold denial, log_write_fault. by rewrite Hw.
  - rewrite <- app_assoc. by rewrite lookup_app_r, Nat.sub_diag.
  - rewrite <- app_assoc. by rewrite take_app_length.
Qed.

Lemma execute_denied_logs_failed_witness :
  let r := GenerateReportAction.execute Demo.admin2 (Some "UNIT1") Demo.world in
  r.1 = Raised (PermissionError GenerateReportAction.denied_message) ∧
  logs (log_manager r.2) !! 0%nat
  = Some (OperationLog.mk "uuid-0000" "ADM002" "administrator"
            GENERATE_REPORTS (Some "UNIT1") (Demo.at_second 0)
            "FAILED" (Some "Insufficient permissions")) ∧
  stdout r.2 = Some [].
Proof.
  destruct (execute_denied_logs_failed Demo.world Demo.admin2 (Some "UNIT1"))
    as (H1 & H2 & _ & H3); [reflexivity|].
  split_and!; [apply H1; reflexivity|exact H2|exact H3].
Defined.

End gate.

(** ** The persisted log *)

Section datetime_text.

Lemma digit_val_digit (d : N) : d < 10 → Datetime.digit_val (Datetime.digit d) = Some d.
Proof.
  intros Hd. unfold Datetime.digit_val, Datetime.digit.
  rewrite N_ascii_embedding by lia.
  replace (48 <=? 48 + d) with true by (symmetry; apply N.leb_le; lia).
  replace (48 + d <=? 57) with true by (symmetry; apply N.leb_le; lia).
  simpl. f_equal. lia.
Qed.

Lemma append_cons (c : ascii) (s r : string) :
  String c s +:+ r = String c (s +:+ r).
Proof. reflexivity. Qed.

Lemma append_nil (r : string) : "" +:+ r = r.
Proof. reflexivity. Qed.

Lemma pow10_succ (k : nat) : 10 ^ N.of_nat (S k) = 10 * 10 ^ N.of_nat k.
Proof. by rewrite Nat2N.inj_succ, N.pow_succ_r'. Qed.

Lemma pow10_pos (k : nat) : 0 < 10 ^ N.of_nat k.
Proof. apply N.neq_0_lt_0, N.pow_nonzero. lia. Qed.

(** Reading back a field of [k] digits. *)
Lemma read_digits_pad (k : nat) (n acc : N) (rest : string) :
  n < 10 ^ N.of_nat k →
  Datetime.read_digits k acc (Datetime.pad k n +:+ rest)
  = Some (acc * 10 ^ N.of_nat k + n, rest).
Proof.
  revert n acc. induction k as [|k IH]; intros n acc Hn.
  - simpl in *. do 2 f_equal. lia.
  - rewrite pow10_succ in Hn. pose proof (pow10_pos k) as Hpos.
    cbn [Datetime.pad]. rewrite append_cons. cbn [Datetime.read_digits].
    assert (n / 10 ^ N.of_nat k < 10) as Hq
      by (apply N.Div0.div_lt_upper_bound; lia).
    rewrite (digit_val_digit _ Hq). cbn [mbind option_bind].
    rewrite IH by (apply N.mod_lt; lia).
    do 2 f_equal. rewrite pow10_succ.
    pose proof (N.div_mod n (10 ^ N.of_nat k)). nia.
Qed.

Lemma read_field (k : nat) (n : N) (rest : string) :
  n < 10 ^ N.of_nat k →
  Datetime.read_digits k 0 (Datetime.pad k n +:+ rest) = Some (n, rest).
Proof. intros Hn. by rewrite read_digits_pad. Qed.

Lemma days_in_month_le (y m : N) : Datetime.days_in_month y m ≤ 31.
Proof. unfold Datetime.days_in_month. repeat case_match; lia. Qed.

Lemma append_empty (s : string) : s +:+ "" = s.
Proof. induction s as [|c s IH]; [done|]. by rewrite append_cons, IH. Qed.

#[local] Ltac step :=
  rewrite ?append_cons, ?append_nil;
  cbn [mbind option_bind Datetime.expect Datetime.skip1].

(** [fromisoformat] inverts [isoformat] on every datetime object. *)
Lemma fromisoformat_isoformat (d : datetime) :
  Datetime.valid d = true →
  Datetime.fromisoformat (Datetime.isoformat d) = Some d.
Proof.
  intros Hv. pose proof Hv as Hr. unfold Datetime.valid in Hr.
  rewrite !andb_true_iff, !N.leb_le, !N.ltb_lt in Hr.
  destruct d as [y mo da h mi se us]. simpl in Hr.
  pose proof (days_in_month_le y mo).
  unfold Datetime.isoformat, Datetime.fromisoformat.
  cbn [year month day hour minute second microsecond].
  rewrite read_field by (change (10 ^ N.of_nat 4) with 10000; lia).
  step.
  rewrite decide_True by done.
  step.
  rewrite read_field by (change (10 ^ N.of_nat 2) with 100; lia).
  step.
  rewrite decide_True by done.
  step.
  rewrite read_field by (change (10 ^ N.of_nat 2) with 100; lia).
  step.
  rewrite read_field by (change (10 ^ N.of_nat 2) with 100; lia).
  step.
  rewrite decide_True by done.
  step.
  rewrite read_field by (change (10 ^ N.of_nat 2) with 100; lia).
  step.
  rewrite decide_True by done.
  step.
  rewrite read_field by (change (10 ^ N.of_nat 2) with 100; lia).
  cbn [mbind option_bind].
  destruct (us =? 0) eqn:Hus.
  - apply N.eqb_eq in Hus as ->. step. by rewrite Hv.
  - step. rewrite decide_True by done. step.
    rewrite <- (append_empty (Datetime.pad 6 us)).
    rewrite read_field by (change (10 ^ N.of_nat 6) with 1000000; lia).
    cbn [mbind option_bind]. by rewrite Hv.
Qed.

End datetime_text.

Section store.

Implicit Types (w : World) (log : OperationLog.t) (l : list OperationLog.t).

Lemma of_value_value (o : Operation) : Operation.of_value (Operation.value o) = Some o.
Proof. by destruct o. Qed.

(** Every timestamp of the list is a datetime object. *)
Definition well_formed l : Prop :=
  Forall (λ log, Datetime.valid (OperationLog.timestamp log) = true) l.

Lemma subscript_to_dict log (key : string) (v : json) :
  (list_to_map [
      ("id", JStr (OperationLog.id log));
      ("operator_code", JStr (OperationLog.operator_code log));
      ("operator_role", JStr (OperationLog.operator_role log));
      ("operation", JStr (Operation.value (OperationLog.operation log)));
      ("unit_id", OperationLog.optional (OperationLog.unit_id log));
      ("timestamp", JStr (Datetime.isoformat (OperationLog.timestamp log)));
      ("status", JStr (OperationLog.status log));
      ("details", OperationLog.optional (OperationLog.details log))
    ] : gmap string json) !! key = Some v →
  LogManager.subscript (OperationLog.to_dict log) key = Returned v.
Proof. unfold OperationLog.to_dict, LogManager.subscript. by intros ->. Qed.

Lemma as_optional_str_optional (s : option string) :
  LogManager.as_optional_str (OperationLog.optional s) = Returned s.
Proof. by destruct s. Qed.

(** Reading back the dict of one entry. *)
Lemma parse_log_to_dict log :
  Datetime.valid (OperationLog.timestamp log) = true →
  LogManager.parse_log (OperationLog.to_dict log) = Returned log.
Proof.
  intros Hv. unfold LogManager.parse_log.
  rewrite (subscript_to_dict log "id" _ eq_refl).
  rewrite (subscript_to_dict log "operator_code" _ eq_refl).
  rewrite (subscript_to_dict log "operator_role" _ eq_refl).
  rewrite (subscript_to_dict log "operation" _ eq_refl).
  rewrite (subscript_to_dict log "unit_id" _ eq_refl).
  rewrite (subscript_to_dict log "timestamp" _ eq_refl).
  rewrite (subscript_to_dict log "status" _ eq_refl).
  rewrite (subscript_to_dict log "details" _ eq_refl).
  cbn [snd mbind outcome_bind LogManager.as_str LogManager.as_operation
       LogManager.as_datetime].
  rewrite of_value_value, (fromisoformat_isoformat _ Hv),
    !as_optional_str_optional.
  by destruct log.
Qed.

Lemma parse_logs_to_dict l :
  well_formed l →
  LogManager.parse_logs (OperationLog.to_dict <$> l) = Returned l.
Proof.
  induction 1 as [|log l Hlog _ IH]; [done|].
  rewrite fmap_cons. cbn [LogManager.parse_logs].
  by rewrite (parse_log_to_dict _ Hlog), IH.
Qed.

(** The world [save_logs] leaves when the file can be written. *)
Definition saved w : World :=
  set_files (<[log_file_path (log_manager w)
               := Document (JArr (OperationLog.to_dict <$> logs (log_manager w)))]>
               (files w)) w.

Lemma save_logs_run w :
  writable w (log_file_path (log_manager w)) →
  LogManager.save_logs w = (Returned tt, saved w).
Proof.
  intros Hw. unfold LogManager.save_logs, gets, write_json.
  cbv beta iota delta [mbind M_bind]. by rewrite Hw.
Qed.

(** [load_logs] when the manager's file holds the dicts of [l]. *)
Lemma load_logs_stored w l :
  files w !! log_file_path (log_manager w)
    = Some (Document (JArr (OperationLog.to_dict <$> l))) →
  well_formed l →
  LogManager.load_logs w
  = (Returned tt,
     set_log_manager (mk_LogManager (log_file_path (log_manager w)) l) w).
Proof.
  intros Hfile Hl.
  unfold LogManager.load_logs, try_except, mbind, M_bind, gets, read_json.
  rewrite Hfile. unfold lift. cbn [LogManager.iterate mbind outcome_bind].
  by rewrite (parse_logs_to_dict _ Hl).
Qed.

(** Reloading what [save_logs] wrote, on the same manager and on a new
    one. *)
Lemma reload_saved w :
  well_formed (logs (log_manager w)) →
  let reloaded := set_log_manager
                    (mk_LogManager (log_file_path (log_manager w))
                                   (logs (log_manager w))) (saved w) in
  LogManager.load_logs (saved w) = (Returned tt, reloaded) ∧
  LogManager.init (log_file_path (log_manager w)) (saved w)
  = (Returned tt, reloaded).
Proof.
  intros Hl reloaded. subst reloaded. split.
  - apply (load_logs_stored (saved w) (logs (log_manager w))); [|done].
    simpl. apply lookup_insert_eq.
  - unfold LogManager.init, mbind, M_bind, modify.
    rewrite (load_logs_stored _ (logs (log_manager w))); [done| |done].
    simpl. apply lookup_insert_eq.
Qed.

(** C6: once the [N] entries of the log are persisted by [save_logs],
    reloading them - by [load_logs] on the same manager, or by building a
    new [LogManager] on the same path - returns normally and leaves
    exactly those [N] entries, equal field for field and in the same
    order.  Persisting them presupposes that the file can be written. *)
Theorem save_then_load_roundtrip w :
  well_formed (logs (log_manager w)) →
  writable w (log_file_path (log_manager w)) →
  let original := logs (log_manager w) in
  let path := log_file_path (log_manager w) in
  ∃ w1 w2 w3,
    LogManager.save_logs w = (Returned tt, w1) ∧
    LogManager.load_logs w1 = (Returned tt, w2) ∧
    LogManager.init path w1 = (Returned tt, w3) ∧
    logs (log_manager w2) = original ∧
    logs (log_manager w3) = original ∧
    length (logs (log_manager w3)) = length original.
Proof.
  intros Hl Hw original path.
  destruct (reload_saved w Hl) as [Hload Hinit].
  eexists (saved w), _, _.
  split_and!; [by apply save_logs_run|exact Hload|exact Hinit|done..].
Qed.

Lemma save_then_load_roundtrip_witness :
  let w := set_log_manager
             (mk_LogManager "operation_logs.json"
                [Demo.entry 0; Demo.entry 1; Demo.entry 2]) Demo.world in
  ∃ w1 w2 w3,
    LogManager.save_logs w = (Returned tt, w1) ∧
    LogManager.load_logs w1 = (Returned tt, w2) ∧
    LogManager.init "operation_logs.json" w1 = (Returned tt, w3) ∧
    logs (log_manager w2) = [Demo.entry 0; Demo.entry 1; Demo.entry 2] ∧
    logs (log_manager w3) = [Demo.entry 0; Demo.entry 1; Demo.entry 2] ∧
    length (logs (log_manager w3)) = 3%nat.
Proof.
  apply (save_then_load_roundtrip
           (set_log_manager
              (mk_LogManager "operation_logs.json"
                 [Demo.entry 0; Demo.entry 1; Demo.entry 2]) Demo.world));
    [repeat constructor|reflexivity].
Defined.

(** Entries written one by one with [add_log] are all there after a
    restart. *)
Lemma add_log_then_restart w log :
  well_formed (logs (log_manager w)) →
  Datetime.valid (OperationLog.timestamp log) = true →
  writable w (log_file_path (log_manager w)) →
  ∃ w1 w2,
    LogManager.add_log log w = (Returned tt, w1) ∧
    LogManager.init (log_file_path (log_manager w)) w1 = (Returned tt, w2) ∧
    logs (log_manager w2) = logs (log_manager w) ++ [log].
Proof.
  intros Hl Hlog Hw.
  set (w' := set_log_manager
               (mk_LogManager (log_file_path (log_manager w))
                  (logs (log_manager w) ++ [log])) w).
  assert (well_formed (logs (log_manager w'))) as Hl'.
  { simpl. apply Forall_app. split; [done|]. by constructor. }
  destruct (reload_saved w' Hl') as [_ Hinit].
  eexists (saved w'), _. split_and!; [|exact Hinit|done].
  unfold LogManager.add_log, LogManager.set_logs, gets, modify.
  cbv beta iota delta [mbind M_bind]. by apply (save_logs_run w').
Qed.

(** [load_logs] with no file under the manager's path: whatever the
    manager held, it holds no entry afterwards, and nothing is raised. *)
Lemma load_logs_missing w :
  files w !! log_file_path (log_manager w) = None →
  LogManager.load_logs w
  = (Returned tt,
     set_log_manager (mk_LogManager (log_file_path (log_manager w)) []) w).
Proof.
  intros Hnone.
  unfold LogManager.load_logs, try_except, mbind, M_bind, gets, read_json.
  by rewrite Hnone.
Qed.

(** C8: when no file exists under the path, constructing the manager
    (which calls [load_logs]) returns normally with an empty log; the
    [FileNotFoundError] is handled, no file is created, and loading
    again gives the same. *)
Theorem load_without_store_is_empty w (path : string) :
  files w !! path = None →
  ∃ w',
    LogManager.init path w = (Returned tt, w') ∧
    logs (log_manager w') = [] ∧
    log_file_path (log_manager w') = path ∧
    files w' = files w ∧
    LogManager.load_logs w' = (Returned tt, w').
Proof.
  intros Hnone.
  exists (set_log_manager (mk_LogManager path []) w).
  split_and!; try done.
  - unfold LogManager.init, mbind, M_bind, modify.
    by rewrite load_logs_missing.
  - by rewrite load_logs_missing.
Qed.

Lemma load_without_store_is_empty_witness :
  ∃ w',
    LogManager.init "operation_logs.json" Demo.world = (Returned tt, w') ∧
    logs (log_manager w') = [] ∧
    log_file_path (log_manager w') = "operation_logs.json" ∧
    files w' = files Demo.world ∧
    LogManager.load_logs w' = (Returned tt, w').
Proof.
  apply (load_without_store_is_empty Demo.world "operation_logs.json").
  reflexivity.
Defined.

End store.

(** ** The demo objects are the ones [main] builds *)

Section demo.

Lemma admin1_built :
  (Profile.add_unit_permission
     (Profile.init "admin1" "administrator" "ADM001") "UNIT1" GENERATE_REPORTS
   ≫= λ p, Profile.add_unit_permission p "UNIT1" VIEW_REPORTS)
  = Returned Demo.admin1.
Proof. reflexivity. Qed.

Lemma admin2_built :
  Profile.add_unit_permission
    (Profile.init "admin2" "administrator" "ADM002") "UNIT1" VIEW_REPORTS
  = Returned Demo.admin2.
Proof. reflexivity. Qed.

Lemma registry_built :
  ('(_, r) ← ProfileManager.add_unit ProfileManager.init "UNIT1" "Marketing";
   '(_, r) ← ProfileManager.add_unit r "UNIT2" "Sales";
   '(_, r) ← ProfileManager.create_profile r "admin1" "administrator" "ADM001";
   '(_, r) ← ProfileManager.create_profile r "admin2" "administrator" "ADM002";
   mret (ProfileManager.units r, dom (ProfileManager.profiles r)))
  = Returned (ProfileManager.units Demo.registry,
              dom (ProfileManager.profiles Demo.registry)).
Proof. reflexivity. Qed.

End demo.

(** * Further properties of the code *)

(** ** The enumeration *)

Section enumeration.

Lemma of_value_Some (s : string) (o : Operation) :
  Operation.of_value s = Some o → Operation.value o = s.
Proof.
  unfold Operation.of_value. intros H.
  assert (o ∈ filter (λ o, Operation.value o = s) Operation.members) as Ho.
  { destruct (filter _ _) as [|x l]; [done|]. injection H as ->. left. }
  by apply list_elem_of_filter in Ho as [? _].
Qed.

(** X1: [Operation(s)] returns the member [o] exactly when [s] is the
    value of [o]: every value is found again, any other string is
    rejected, and no two members share a value. *)
Theorem of_value_iff (s : string) (o o' : Operation) :
  (Operation.of_value s = Some o ↔ Operation.value o = s) ∧
  (Operation.value o = Operation.value o' → o = o').
Proof.
  split; [split|].
  - apply of_value_Some.
  - intros <-. apply of_value_value.
  - intros H. pose proof (of_value_value o) as Ho.
    rewrite H, of_value_value in Ho. congruence.
Qed.

End enumeration.

(** ** Profiles and their grants *)

Section profiles.

Implicit Types (p : Profile.t) (o : Operation) (u : option string).

Lemma add_global_permission_run p o :
  ∃ p', Profile.add_global_permission p o = Returned p' ∧
        Profile.global_permissions p' = Profile.global_permissions p ∪ {[o]} ∧
        Profile.unit_permissions p' = Profile.unit_permissions p.
Proof. by eexists. Qed.

(** X2: a newly constructed profile is denied every operation, with
    any unit or none; so is the profile the registry holds under a name
    after [create_profile] is called for it, whatever a profile of that
    name had been granted before. *)
Theorem new_profile_denied (a b c : string) o u (self : ProfileManager.t) :
  Profile.can_perform (Profile.init a b c) o u = false ∧
  ∃ p self',
    ProfileManager.create_profile self a b c = Returned (p, self') ∧
    ProfileManager.get_profile self' a = Some p ∧
    Profile.can_perform p o u = false.
Proof.
  assert (Profile.can_perform (Profile.init a b c) o u = false) as Hinit.
  { apply not_true_is_false. rewrite can_perform_true. simpl.
    intros [H|(s & S & _ & _ & H & _)]; [set_solver|].
    by rewrite lookup_empty in H. }
  split; [done|].
  eexists _, _. split_and!; [reflexivity| |exact Hinit].
  unfold ProfileManager.get_profile. simpl. apply lookup_insert_eq.
Qed.

(** X3: after a global grant of [o] the decision for [o] is true for
    every unit argument, and the decision for every other operation is
    what it was. *)
Theorem global_grant_effect p o :
  ∃ p', Profile.add_global_permission p o = Returned p' ∧
        (∀ u, Profile.can_perform p' o u = true) ∧
        (∀ o' u, o' ≠ o →
           Profile.can_perform p' o' u = Profile.can_perform p o' u).
Proof.
  destruct (add_global_permission_run p o) as (p' & Hp' & Hg & Hu).
  exists p'. split_and!; [done| |].
  - intros u. apply can_perform_true. left. rewrite Hg. set_solver.
  - intros o' u Hne. apply eq_true_iff_eq.
    rewrite !can_perform_true, Hg, Hu. set_solver.
Qed.

(** X4: after a grant of [o] for a unit [U] with a non-empty id the
    decision for [o] on [U] is true, and every decision about another
    operation or another unit argument is what it was. *)
Theorem unit_grant_effect p (U : string) o :
  U ≠ "" →
  ∃ p', Profile.add_unit_permission p U o = Returned p' ∧
        Profile.can_perform p' o (Some U) = true ∧
        (∀ o' u, o' ≠ o ∨ u ≠ Some U →
           Profile.can_perform p' o' u = Profile.can_perform p o' u).
Proof.
  intros HU.
  destruct (add_unit_permission_lookup p U o) as (p' & Hp' & Hg & Hu).
  exists p'. split_and!; [done| |].
  - apply can_perform_true. right. eexists U, _.
    split_and!; [done|done| |]; [by rewrite Hu, lookup_insert_eq|set_solver].
  - intros o' u Hne. apply eq_true_iff_eq. rewrite !can_perform_true, Hg, Hu.
    split; (intros [?|(s & S & -> & Hs & HS & Ho)]; [by left|right]).
    + destruct (decide (s = U)) as [->|Hne'].
      * rewrite lookup_insert_eq in HS. injection HS as <-.
        destruct Hne as [Hne|Hne]; [|done].
        destruct (Profile.unit_permissions p !! U) as [S|] eqn:HS.
        -- exists U, S. split_and!; try done. set_solver.
        -- simpl in Ho. set_solver.
      * rewrite lookup_insert_ne in HS by done. by exists s, S.
    + destruct (decide (s = U)) as [->|Hne'].
      * eexists U, _. split_and!; [done|done| |].
        -- by rewrite lookup_insert_eq.
        -- rewrite HS. simpl. set_solver.
      * exists s, S. split_and!; try done. by rewrite lookup_insert_ne.
Qed.

Lemma unit_grant_effect_witness :
  ∃ p', Profile.add_unit_permission Demo.admin2 "UNIT1" GENERATE_REPORTS
          = Returned p' ∧
        Profile.can_perform p' GENERATE_REPORTS (Some "UNIT1") = true ∧
        Profile.can_perform p' GENERATE_REPORTS (Some "UNIT2") = false.
Proof.
  destruct (unit_grant_effect Demo.admin2 "UNIT1" GENERATE_REPORTS)
    as (p' & Hp' & Hyes & Hframe); [done|].
  exists p'. split_and!; [done|done|].
  rewrite Hframe; [reflexivity|]. by right.
Defined.

(** X5: a grant for the unit with the empty id is accepted and stored,
    and changes no decision at all. *)
Theorem empty_unit_grant_is_dead p o :
  ∃ p' S, Profile.add_unit_permission p "" o = Returned p' ∧
          Profile.unit_permissions p' !! "" = Some S ∧ o ∈ S ∧
          ∀ o' u, Profile.can_perform p' o' u = Profile.can_perform p o' u.
Proof.
  destruct (add_unit_permission_lookup p "" o) as (p' & Hp' & Hg & Hu).
  eexists p', _. split_and!; [done| | |].
  - by rewrite Hu, lookup_insert_eq.
  - set_solver.
  - intros o' u. apply eq_true_iff_eq. rewrite !can_perform_true, Hg, Hu.
    split; (intros [?|(s & S & -> & Hs & HS & Ho)]; [by left|right]);
      exists s, S; split_and!; try done.
    + by rewrite lookup_insert_ne in HS.
    + by rewrite lookup_insert_ne.
Qed.

End profiles.

Section grant_order.

Implicit Types (p : Profile.t) (o : Operation).

(** The profile a unit grant returns, in closed form. *)
Lemma add_unit_permission_eq p (U : string) o :
  Profile.add_unit_permission p U o
  = Returned
      (Profile.mk (Profile.name p) (Profile.base_role p)
         (Profile.operator_code p)
         (<[U := default ∅ (Profile.unit_permissions p !! U) ∪ {[o]}]>
            (Profile.unit_permissions p))
         (Profile.global_permissions p)).
Proof.
  destruct (add_unit_permission_lookup p U o) as (p' & Hp' & Hg & Hu).
  rewrite Hp'. f_equal. apply profile_eq; simpl; try done;
    unfold Profile.add_unit_permission in Hp'; injection Hp' as <-;
    by case_decide.
Qed.

(** X6: the order of two grants does not matter: two global grants, two
    unit grants (for the same unit or not), and a global grant with a
    unit grant each give the same profile either way round. *)
Theorem grants_commute p o1 o2 (U1 U2 : string) :
  (Profile.add_global_permission p o1
     ≫= λ q, Profile.add_global_permission q o2)
  = (Profile.add_global_permission p o2
       ≫= λ q, Profile.add_global_permission q o1) ∧
  (Profile.add_unit_permission p U1 o1
     ≫= λ q, Profile.add_unit_permission q U2 o2)
  = (Profile.add_unit_permission p U2 o2
       ≫= λ q, Profile.add_unit_permission q U1 o1) ∧
  (Profile.add_global_permission p o1
     ≫= λ q, Profile.add_unit_permission q U2 o2)
  = (Profile.add_unit_permission p U2 o2
       ≫= λ q, Profile.add_global_permission q o1).
Proof.
  split_and!.
  - unfold Profile.add_global_permission. cbn [mbind outcome_bind].
    f_equal. apply profile_eq; simpl; try done. set_solver.
  - rewrite !add_unit_permission_eq. cbn [mbind outcome_bind].
    rewrite !add_unit_permission_eq. f_equal.
    apply profile_eq; simpl; try done.
    destruct (decide (U1 = U2)) as [->|Hne].
    + rewrite !lookup_insert_eq, !insert_insert_eq. simpl. f_equal. set_solver.
    + rewrite !lookup_insert_ne by done. by apply insert_insert_ne.
  - unfold Profile.add_global_permission. cbn [mbind outcome_bind].
    rewrite !add_unit_permission_eq. cbn [mbind outcome_bind]. done.
Qed.

End grant_order.

(** ** The other queries *)

Section more_queries.

Implicit Types (self : LogManager) (w : World) (log : OperationLog.t).

(** A filter keeps the stored order, keeps only what satisfies the
    predicate, and misses nothing that does. *)
Lemma filter_selection {A} (P : A → Prop) `{!∀ x, Decision (P x)} (l : list A) :
  filter P l `sublist_of` l ∧
  (∀ x, x ∈ filter P l ↔ x ∈ l ∧ P x) ∧
  (∀ r, r `sublist_of` l → Forall P r → r `sublist_of` filter P l).
Proof.
  split_and!.
  - apply sublist_filter.
  - intros x. rewrite list_elem_of_filter. tauto.
  - intros r. apply sublist_filter_all.
Qed.

(** X7: [get_logs_by_operator] returns, in stored order, exactly the
    entries whose operator code is the one asked for: every returned
    entry is stored and has that code, and any selection of stored
    entries with that code is contained in the result. *)
Theorem by_operator_selects self (code : string) :
  let r := LogManager.get_logs_by_operator self code in
  r `sublist_of` logs self ∧
  (∀ log, log ∈ r ↔ log ∈ logs self ∧ OperationLog.operator_code log = code) ∧
  (∀ r', r' `sublist_of` logs self →
         Forall (λ log, OperationLog.operator_code log = code) r' →
         r' `sublist_of` r).
Proof. intros r. subst r. apply filter_selection. Qed.

(** X8: [get_logs_by_unit] returns, in stored order, exactly the entries
    recorded for that unit.  An entry recorded without a unit is returned
    for no unit id, and no entry is returned for two different ids. *)
Theorem by_unit_selects self (unit_id : string) :
  let r := LogManager.get_logs_by_unit self unit_id in
  r `sublist_of` logs self ∧
  (∀ log, log ∈ r ↔ log ∈ logs self ∧ OperationLog.unit_id log = Some unit_id) ∧
  (∀ r', r' `sublist_of` logs self →
         Forall (λ log, OperationLog.unit_id log = Some unit_id) r' →
         r' `sublist_of` r) ∧
  (∀ log, OperationLog.unit_id log = None → log ∉ r) ∧
  (∀ log other, log ∈ r → log ∈ LogManager.get_logs_by_unit self other →
                other = unit_id).
Proof.
  intros r. subst r.
  destruct (filter_selection
              (λ log, OperationLog.unit_id log = Some unit_id) (logs self))
    as (Hsub & Hmem & Hmax).
  split_and!; [done|done|done| |].
  - intros log Hnone [_ Hin]%Hmem. congruence.
  - intros log other [_ H1]%Hmem H2.
    unfold LogManager.get_logs_by_unit in H2.
    apply list_elem_of_filter in H2 as [H2 _]. congruence.
Qed.

(** [add_log] appends before it saves: the entry is in the log whether
    or not the file can be written. *)
Lemma add_log_logs w log :
  logs (log_manager (LogManager.add_log log w).2) = logs (log_manager w) ++ [log] ∧
  log_file_path (log_manager (LogManager.add_log log w).2)
  = log_file_path (log_manager w).
Proof.
  unfold LogManager.add_log, LogManager.set_logs, LogManager.save_logs, gets,
    modify, write_json.
  cbv beta iota delta [mbind M_bind].
  cbn [log_manager log_file_path logs write_faults set_log_manager].
  by destruct (write_faults w (log_file_path (log_manager w))).
Qed.

(** X9: after [add_log], each query returns what it returned before,
    followed by the new entry when the entry matches the query. *)
Theorem queries_after_add_log w log (code unit_id : string)
    (start end_ : datetime) :
  let self := log_manager w in
  let self' := log_manager (LogManager.add_log log w).2 in
  LogManager.get_logs_by_operator self' code
  = LogManager.get_logs_by_operator self code
    ++ (if decide (OperationLog.operator_code log = code) then [log] else []) ∧
  LogManager.get_logs_by_unit self' unit_id
  = LogManager.get_logs_by_unit self unit_id
    ++ (if decide (OperationLog.unit_id log = Some unit_id) then [log] else []) ∧
  LogManager.get_logs_by_timerange self' start end_
  = LogManager.get_logs_by_timerange self start end_
    ++ (if decide (in_range start end_ log) then [log] else []).
Proof.
  intros self self'. subst self self'.
  unfold LogManager.get_logs_by_operator, LogManager.get_logs_by_unit,
    LogManager.get_logs_by_timerange.
  destruct (add_log_logs w log) as [-> _].
  rewrite !filter_app, !filter_cons, !filter_nil.
  split_and!; [done|done|].
  f_equal. destruct (decide (in_range start end_ log)) as [Hin|Hout].
  - rewrite decide_True; [done|]. by apply in_range_filter.
  - rewrite decide_False; [done|]. by rewrite in_range_filter.
Qed.

End more_queries.

(** ** Loading a store that [save_logs] did not write *)

Section loading.

Implicit Types (w : World) (log : json) (e : exn).

Lemma bind_returned {A B} (m : outcome A) (f : A → outcome B) (b : B) :
  m ≫= f = Returned b → ∃ a, m = Returned a ∧ f a = Returned b.
Proof. destruct m as [a|]; [|done]. by exists a. Qed.

Lemma bind_raised {A B} (m : outcome A) (f : A → outcome B) e :
  m ≫= f = Raised e → m = Raised e ∨ ∃ a, m = Returned a ∧ f a = Raised e.
Proof.
  destruct m as [a|e']; simpl.
  - intros H. right. by exists a.
  - intros [= <-]. by left.
Qed.

(** The exceptions reading an item can raise. *)
Definition is_parse_error e : Prop :=
  match e with
  | KeyError _ | ValueError _ | TypeError _ => True
  | _ => False
  end.

Lemma subscript_returned log (key : string) (v : json) :
  LogManager.subscript log key = Returned v →
  ∃ o, log = JObj o ∧ o !! key = Some v.
Proof.
  destruct log as [| | | | |o]; try done. simpl.
  destruct (o !! key) as [v'|] eqn:Hv; [|done].
  intros [= <-]. by exists o.
Qed.

Lemma subscript_raised log (key : string) e :
  LogManager.subscript log key = Raised e → is_parse_error e.
Proof.
  destruct log as [| | | | |o]; simpl; try by intros [= <-].
  destruct (o !! key); [done|]. by intros [= <-].
Qed.

Lemma as_str_raised v e : LogManager.as_str v = Raised e → is_parse_error e.
Proof. destruct v; simpl; try done; by intros [= <-]. Qed.

Lemma as_optional_str_raised v e :
  LogManager.as_optional_str v = Raised e → is_parse_error e.
Proof. destruct v; simpl; try done; by intros [= <-]. Qed.

Lemma as_operation_raised v e :
  LogManager.as_operation v = Raised e → is_parse_error e.
Proof.
  destruct v as [| | |s| |]; simpl; try by intros [= <-].
  destruct (Operation.of_value s); [done|]. by intros [= <-].
Qed.

Lemma as_datetime_raised v e :
  LogManager.as_datetime v = Raised e → is_parse_error e.
Proof.
  destruct v as [| | |s| |]; simpl; try by intros [= <-].
  destruct (Datetime.fromisoformat s); [done|]. by intros [= <-].
Qed.

Lemma field_raised log (key : string) {A} (conv : json → outcome A) e :
  (∀ v e, conv v = Raised e → is_parse_error e) →
  LogManager.subscript log key ≫= conv = Raised e → is_parse_error e.
Proof.
  intros Hconv [H|(v & _ & H)]%bind_raised.
  - by eapply subscript_raised.
  - by eapply Hconv.
Qed.

Lemma parse_log_raised log e :
  LogManager.parse_log log = Raised e → is_parse_error e.
Proof.
  unfold LogManager.parse_log. intros H.
  repeat (apply bind_raised in H as [H|(? & _ & H)];
          [eapply field_raised; [|exact H];
           first [apply as_str_raised | apply as_operation_raised
                 | apply as_optional_str_raised | apply as_datetime_raised]|]).
  done.
Qed.

Lemma parse_logs_raised (items : list json) e :
  LogManager.parse_logs items = Raised e → is_parse_error e.
Proof.
  induction items as [|log items IH]; [done|]. cbn [LogManager.parse_logs].
  intros [H|(? & _ & H)]%bind_raised; [by eapply parse_log_raised|].
  apply bind_raised in H as [H|(? & _ & H)]; [by apply IH|done].
Qed.

Lemma document_raised (doc : json) e :
  LogManager.iterate doc ≫= LogManager.parse_logs = Raised e →
  is_parse_error e.
Proof.
  intros [H|(? & _ & H)]%bind_raised; [|by eapply parse_logs_raised].
  destruct doc; simpl in H; try done; by injection H as <-.
Qed.

Lemma load_logs_raises w (doc : json) e :
  files w !! log_file_path (log_manager w) = Some (Document doc) →
  LogManager.iterate doc ≫= LogManager.parse_logs = Raised e →
  LogManager.load_logs w = (Raised e, w).
Proof.
  intros Hfile Hdoc. pose proof (document_raised _ _ Hdoc) as He.
  unfold LogManager.load_logs, try_except, mbind, M_bind, gets, read_json.
  rewrite Hfile. unfold lift. unfold mbind in Hdoc. rewrite Hdoc.
  by destruct e.
Qed.

(** The keys of the persisted format. *)
Definition format_keys : list string :=
  ["id"; "operator_code"; "operator_role"; "operation"; "unit_id";
   "timestamp"; "status"; "details"].

(** An item no entry can be built from: it is not an object, or it
    lacks one of the keys of the format, or its operation is not the
    value of a member of [Operation], or its timestamp is not a
    string. *)
Definition damaged (item : json) : Prop :=
  match item with
  | JObj o =>
      (∃ key, key ∈ format_keys ∧ o !! key = None) ∨
      (∀ op, o !! "operation" ≠ Some (JStr (Operation.value op))) ∨
      (∀ ts, o !! "timestamp" ≠ Some (JStr ts))
  | _ => True
  end.

Lemma parse_log_damaged (item : json) :
  damaged item → ∃ e, LogManager.parse_log item = Raised e.
Proof.
  intros Hd. destruct (LogManager.parse_log item) as [entry|e] eqn:Hp;
    [exfalso|by exists e].
  unfold LogManager.parse_log in Hp.
  apply bind_returned in Hp as (id & [v1 [H1 _]]%bind_returned & Hp).
  apply bind_returned in Hp as (oc & [v2 [H2 _]]%bind_returned & Hp).
  apply bind_returned in Hp as (orl & [v3 [H3 _]]%bind_returned & Hp).
  apply bind_returned in Hp as (op & [v4 [H4 Hop]]%bind_returned & Hp).
  apply bind_returned in Hp as (un & [v5 [H5 _]]%bind_returned & Hp).
  apply bind_returned in Hp as (tm & [v6 [H6 Htm]]%bind_returned & Hp).
  apply bind_returned in Hp as (st & [v7 [H7 _]]%bind_returned & Hp).
  apply bind_returned in Hp as (de & [v8 [H8 _]]%bind_returned & Hp).
  apply subscript_returned in H1 as (o & -> & H1).
  apply subscript_returned in H2 as (? & [= <-] & H2).
  apply subscript_returned in H3 as (? & [= <-] & H3).
  apply subscript_returned in H4 as (? & [= <-] & H4).
  apply subscript_returned in H5 as (? & [= <-] & H5).
  apply subscript_returned in H6 as (? & [= <-] & H6).
  apply subscript_returned in H7 as (? & [= <-] & H7).
  apply subscript_returned in H8 as (? & [= <-] & H8).
  destruct Hd as [(key & Hkey & Hnone)|[Hd|Hd]].
  - unfold format_keys in Hkey.
    repeat (apply elem_of_cons in Hkey as [->|Hkey]; [congruence|]).
    by apply elem_of_nil in Hkey.
  - destruct v4 as [| | |s| |]; simpl in Hop; try done.
    destruct (Operation.of_value s) as [op'|] eqn:Hs; [|done].
    apply (Hd op'). by rewrite (of_value_Some s op' Hs).
  - destruct v6 as [| | |s| |]; simpl in Htm; try done. by apply (Hd s).
Qed.

Lemma parse_logs_damaged (items : list json) (item : json) :
  item ∈ items → damaged item →
  ∃ e, LogManager.parse_logs items = Raised e.
Proof.
  intros Hin Hd. induction items as [|first items IH];
    [by apply elem_of_nil in Hin|].
  cbn [LogManager.parse_logs].
  destruct (LogManager.parse_log first) as [entry|e] eqn:Hfirst;
    [|by exists e].
  apply elem_of_cons in Hin as [->|Hin].
  - destruct (parse_log_damaged first Hd) as [e He]. congruence.
  - destruct (IH Hin) as [e He]. exists e.
    cbn [mbind outcome_bind]. by rewrite He.
Qed.

(** X10: when the stored list holds an item no entry can be built from
    (not an object, a key of the format missing, an operation that is no
    member's value, a timestamp that is not a string), [load_logs]
    raises a [KeyError], [ValueError] or [TypeError] - only
    [FileNotFoundError] is handled - and leaves the manager, and
    everything else, as it was: a damaged store is not taken for an
    empty one. *)
Theorem load_logs_damaged_store w (items : list json) (item : json) :
  files w !! log_file_path (log_manager w) = Some (Document (JArr items)) →
  item ∈ items → damaged item →
  ∃ e, LogManager.load_logs w = (Raised e, w) ∧ is_parse_error e.
Proof.
  intros Hfile Hin Hd.
  destruct (parse_logs_damaged items item Hin Hd) as [e He].
  assert (LogManager.iterate (JArr items) ≫= LogManager.parse_logs = Raised e)
    as Hdoc by exact He.
  exists e. split.
  - by apply (load_logs_raises w (JArr items)).
  - by apply (document_raised (JArr items)).
Qed.

Lemma load_logs_damaged_store_witness :
  let w := set_files
             {[ "operation_logs.json"
                := Document (JArr [OperationLog.to_dict (Demo.entry 0); JObj ∅]) ]}
             Demo.world in
  ∃ e, LogManager.load_logs w = (Raised e, w) ∧ is_parse_error e.
Proof.
  apply (load_logs_damaged_store
           (set_files
              {[ "operation_logs.json"
                 := Document (JArr [OperationLog.to_dict (Demo.entry 0); JObj ∅]) ]}
              Demo.world)
           [OperationLog.to_dict (Demo.entry 0); JObj ∅] (JObj ∅)).
  - reflexivity.
  - right. left.
  - left. exists "id". split; [left|done].
Defined.

(** X11: when the stored document is not a list, [load_logs] either
    takes it for an empty log - this happens exactly for the empty object
    and the empty string - or raises a [TypeError] and changes nothing. *)
Theorem load_logs_not_a_list w (doc : json) :
  files w !! log_file_path (log_manager w) = Some (Document doc) →
  (∀ l, doc ≠ JArr l) →
  ((doc = JObj ∅ ∨ doc = JStr "") ∧
   LogManager.load_logs w
   = (Returned tt,
      set_log_manager (mk_LogManager (log_file_path (log_manager w)) []) w)) ∨
  (doc ≠ JObj ∅ ∧ doc ≠ JStr "" ∧
   ∃ msg, LogManager.load_logs w = (Raised (TypeError msg), w)).
Proof.
  intros Hfile Hnl.
  unfold LogManager.load_logs, try_except, mbind, M_bind, gets, read_json.
  rewrite Hfile. unfold lift.
  destruct doc as [|b|n|s|l|o]; simpl.
  - right. split_and!; [done|done|by eexists].
  - right. split_and!; [done|done|by eexists].
  - right. split_and!; [done|done|by eexists].
  - destruct s as [|c s]; [left; by split; [right|]|].
    right. split_and!; [done|done|by eexists].
  - by destruct (Hnl l).
  - destruct (map_to_list o) as [|[k v] kvs] eqn:Hkv.
    + apply map_to_list_empty_iff in Hkv as ->. left. by split; [left|].
    + right. split_and!; [|done|by eexists].
      intros [= ->]. by rewrite map_to_list_empty in Hkv.
Qed.

Lemma load_logs_not_a_list_witness :
  let w := set_files {[ "operation_logs.json" := Document JNull ]} Demo.world in
  ((JNull = JObj ∅ ∨ JNull = JStr "") ∧
   LogManager.load_logs w
   = (Returned tt,
      set_log_manager (mk_LogManager "operation_logs.json" []) w)) ∨
  (JNull ≠ JObj ∅ ∧ JNull ≠ JStr "" ∧
   ∃ msg, LogManager.load_logs w = (Raised (TypeError msg), w)).
Proof.
  apply (load_logs_not_a_list
           (set_files {[ "operation_logs.json" := Document JNull ]} Demo.world)
           JNull);
    [reflexivity|done].
Defined.

End loading.

Section persistence.

Implicit Types (w : World) (entry : OperationLog.t) (l : list OperationLog.t).

(** The file under the manager's path holds the dicts of exactly the
    entries the manager holds. *)
Definition persisted w : Prop :=
  files w !! log_file_path (log_manager w)
  = Some (Document (JArr (OperationLog.to_dict <$> logs (log_manager w)))).

(** Whatever [load_logs] finds, the world it leaves differs from the one
    it started in by the entries of the manager at most. *)
Lemma load_logs_world w :
  ∃ l, (LogManager.load_logs w).2
       = set_log_manager (mk_LogManager (log_file_path (log_manager w)) l) w.
Proof.
  assert (w = set_log_manager
                (mk_LogManager (log_file_path (log_manager w))
                               (logs (log_manager w))) w) as Hsame
    by by destruct w as [? ? ? ? ? ? ? []].
  unfold LogManager.load_logs, try_except, gets, read_json, lift,
    LogManager.set_logs, modify, raise.
  cbv beta iota delta [mbind M_bind].
  destruct (files w !! log_file_path (log_manager w)) as [[doc|e]|].
  - destruct (outcome_bind _ _ LogManager.parse_logs (LogManager.iterate doc))
      as [l|e]; [by exists l|].
    destruct e;
      first [by exists [] | exists (logs (log_manager w)); exact Hsame].
  - destruct e;
      first [by exists [] | exists (logs (log_manager w)); exact Hsame].
  - by exists [].
Qed.

(** X13: [load_logs] writes nothing: whatever the file holds and
    however the call ends, the files, the console and the manager's path
    are as before, and no id is drawn and the clock is not read. *)
Theorem load_logs_frame w :
  let r := LogManager.load_logs w in
  files r.2 = files w ∧ stdout r.2 = stdout w ∧
  log_file_path (log_manager r.2) = log_file_path (log_manager w) ∧
  uuid_calls r.2 = uuid_calls w ∧ clock_reads r.2 = clock_reads w.
Proof.
  intros r. subst r. destruct (load_logs_world w) as [l ->]. by split_and!.
Qed.

(** A restart on a persisted, well-formed log finds the same log. *)
Lemma restart_persisted w :
  persisted w → well_formed (logs (log_manager w)) →
  LogManager.init (log_file_path (log_manager w)) w = (Returned tt, w).
Proof.
  intros Hp Hl. unfold LogManager.init, mbind, M_bind, modify.
  rewrite (load_logs_stored _ (logs (log_manager w))); [|done|done].
  by destruct w as [? ? ? ? ? ? ? []].
Qed.

(** The world after adding the entries [l] one by one. *)
Definition added w l : World :=
  fold_left (λ w entry, (LogManager.add_log entry w).2) l w.

(** [add_log] when the file can be written. *)
Lemma add_log_run w entry :
  writable w (log_file_path (log_manager w)) →
  LogManager.add_log entry w = (Returned tt, (LogManager.add_log entry w).2) ∧
  writable (LogManager.add_log entry w).2
    (log_file_path (log_manager (LogManager.add_log entry w).2)) ∧
  persisted (LogManager.add_log entry w).2.
Proof.
  intros Hw. unfold writable in *.
  unfold persisted, LogManager.add_log, LogManager.set_logs,
    LogManager.save_logs, gets, modify, write_json.
  cbv beta iota delta [mbind M_bind].
  cbn [log_manager log_file_path logs write_faults set_log_manager].
  rewrite Hw. split_and!; [done|done|]. simpl. apply lookup_insert_eq.
Qed.

Lemma for_each_add_log w l :
  writable w (log_file_path (log_manager w)) →
  Main.for_each l LogManager.add_log w = (Returned tt, added w l).
Proof.
  revert w. induction l as [|entry l IH]; intros w Hw; [done|].
  destruct (add_log_run w entry Hw) as (Hrun & Hw' & _).
  cbn [Main.for_each]. unfold mbind, M_bind. rewrite Hrun.
  by apply IH.
Qed.

Lemma added_logs w l :
  writable w (log_file_path (log_manager w)) →
  logs (log_manager (added w l)) = logs (log_manager w) ++ l ∧
  log_file_path (log_manager (added w l)) = log_file_path (log_manager w) ∧
  (l ≠ [] → persisted (added w l)).
Proof.
  revert w. induction l as [|entry l IH]; intros w Hw.
  - by rewrite app_nil_r.
  - destruct (add_log_run w entry Hw) as (_ & Hw' & Hp').
    destruct (add_log_logs w entry) as [Hlogs1 Hpath1].
    destruct (IH (LogManager.add_log entry w).2 Hw') as (Hlogs & Hpath & Hpers).
    cbn [added fold_left]. fold (added (LogManager.add_log entry w).2 l).
    split_and!.
    + rewrite Hlogs, Hlogs1. by rewrite <- app_assoc.
    + by rewrite Hpath.
    + intros _. destruct l as [|entry' l]; [exact Hp'|by apply Hpers].
Qed.

(** X14: after one or more entries are added with [add_log], one after
    the other, the manager holds the old entries followed by the new
    ones in the order added, and a new manager built on the same path
    loads exactly that log.  That the entries are added presupposes that
    the file can be written. *)
Theorem add_logs_then_restart w l :
  l ≠ [] →
  well_formed (logs (log_manager w)) → well_formed l →
  writable w (log_file_path (log_manager w)) →
  ∃ w',
    Main.for_each l LogManager.add_log w = (Returned tt, w') ∧
    logs (log_manager w') = logs (log_manager w) ++ l ∧
    LogManager.init (log_file_path (log_manager w)) w' = (Returned tt, w').
Proof.
  intros Hne Hw Hl Hwr.
  destruct (added_logs w l Hwr) as (Hlogs & Hpath & Hpers).
  exists (added w l). split_and!; [by apply for_each_add_log|done|].
  rewrite <- Hpath. apply restart_persisted; [by apply Hpers|].
  rewrite Hlogs. by apply Forall_app.
Qed.

Lemma add_logs_then_restart_witness :
  ∃ w',
    Main.for_each [Demo.entry 0; Demo.entry 1] LogManager.add_log Demo.world
      = (Returned tt, w') ∧
    logs (log_manager w') = [Demo.entry 0; Demo.entry 1] ∧
    LogManager.init "operation_logs.json" w' = (Returned tt, w').
Proof.
  apply (add_logs_then_restart Demo.world [Demo.entry 0; Demo.entry 1]);
    [done|constructor|repeat constructor|reflexivity].
Defined.

(** X15: two entries with datetime objects as timestamps that
    [to_dict] maps to the same dict are the same entry. *)
Theorem to_dict_inj (a b : OperationLog.t) :
  Datetime.valid (OperationLog.timestamp a) = true →
  Datetime.valid (OperationLog.timestamp b) = true →
  OperationLog.to_dict a = OperationLog.to_dict b → a = b.
Proof.
  intros Ha Hb Heq.
  pose proof (parse_log_to_dict a Ha) as Hpa.
  pose proof (parse_log_to_dict b Hb) as Hpb.
  rewrite Heq in Hpa. congruence.
Qed.

Lemma to_dict_inj_witness : Demo.entry 2 = Demo.entry (1 + 1).
Proof. apply (to_dict_inj (Demo.entry 2) (Demo.entry (1 + 1))); reflexivity. Defined.

End persistence.

(** ** More on the gated action *)

Section gate_effects.

Implicit Types (w : World) (profile : Profile.t) (unit_id : option string).

(** The three paths of [execute] when the log file can be written. *)
Lemma execute_allowed_written w profile unit_id (out : list string) :
  GenerateReportAction.can_execute profile unit_id = true →
  stdout w = Some out →
  writable w (log_file_path (log_manager w)) →
  GenerateReportAction.execute profile unit_id w
  = (Returned tt,
     after_logging
       (set_stdout
          (Some (out ++ ["Generating report for unit "
                         +:+ GenerateReportAction.format_unit unit_id])) w)
       profile unit_id "SUCCESS" (Some "Report generated successfully")).
Proof.
  intros Hcan Hout Hw. rewrite (execute_allowed w profile unit_id out Hcan Hout).
  unfold log_write_fault. by rewrite Hw.
Qed.

Lemma execute_body_fault_written w profile unit_id :
  GenerateReportAction.can_execute profile unit_id = true →
  stdout w = None →
  writable w (log_file_path (log_manager w)) →
  GenerateReportAction.execute profile unit_id w
  = (Raised body_fault,
     after_logging w profile unit_id "ERROR" (Some (str body_fault))).
Proof.
  intros Hcan Hout Hw. rewrite (execute_body_fault w profile unit_id Hcan Hout).
  unfold log_write_fault. by rewrite Hw.
Qed.

Lemma execute_denied_written w profile unit_id :
  GenerateReportAction.can_execute profile unit_id = false →
  writable w (log_file_path (log_manager w)) →
  GenerateReportAction.execute profile unit_id w
  = (Raised (PermissionError GenerateReportAction.denied_message),
     after_logging
       (after_logging w profile unit_id "FAILED"
          (Some "Insufficient permissions"))
       profile unit_id "ERROR" (Some GenerateReportAction.denied_message)).
Proof.
  intros Hcan Hw. rewrite (execute_denied w profile unit_id Hcan).
  unfold denial, log_write_fault. by rewrite Hw.
Qed.

(** A written log is on file. *)
Lemma after_logging_persisted w profile unit_id status details :
  writable w (log_file_path (log_manager w)) →
  persisted (after_logging w profile unit_id status details).
Proof.
  intros Hw. unfold persisted, after_logging, log_write_fault. rewrite Hw.
  simpl. apply lookup_insert_eq.
Qed.

(** [log_operation] touches no file but the log file. *)
Lemma after_logging_other_files w profile unit_id status details (path : string) :
  path ≠ log_file_path (log_manager w) →
  files (after_logging w profile unit_id status details) !! path
  = files w !! path.
Proof.
  intros Hpath. unfold after_logging. simpl.
  destruct (log_write_fault w); [done|]. by rewrite lookup_insert_ne.
Qed.



(** X17: when the call is permitted, the body faults (the console is
    closed) and the log file can be written, the same fault reaches the
    caller, and one entry is appended, with status ERROR and the fault's
    message as details. *)
Theorem execute_fault_logged w profile unit_id :
  Profile.can_perform profile GENERATE_REPORTS unit_id = true →
  stdout w = None →
  writable w (log_file_path (log_manager w)) →
  let r := GenerateReportAction.execute profile unit_id w in
  r.1 = Raised (ValueError "I/O operation on closed file.") ∧
  logs (log_manager r.2)
  = logs (log_manager w)
    ++ [OperationLog.mk (uuids w (uuid_calls w))
          (Profile.operator_code profile) (Profile.base_role profile)
          GENERATE_REPORTS unit_id (clock w (clock_reads w))
          "ERROR" (Some "I/O operation on closed file.")] ∧
  stdout r.2 = None.
Proof.
  intros Hcan Hout Hw r. subst r.
  by rewrite (execute_body_fault_written w profile unit_id Hcan Hout Hw).
Qed.

Lemma execute_fault_logged_witness :
  let r := GenerateReportAction.execute Demo.admin1 (Some "UNIT1")
             (set_stdout None Demo.world) in
  r.1 = Raised (ValueError "I/O operation on closed file.") ∧
  OperationLog.status <$> logs (log_manager r.2) = ["ERROR"].
Proof.
  destruct (execute_fault_logged (set_stdout None Demo.world) Demo.admin1
              (Some "UNIT1")) as (H1 & H2 & _);
    [reflexivity|reflexivity|reflexivity|].
  split; [exact H1|]. by rewrite H2.
Defined.



(** X19: on every path [execute] touches no file but the log file,
    keeps the manager's path, and keeps the entries that were in the log
    where they were, followed by one or two new ones; when the log file
    can be written, it leaves the file holding exactly the entries the
    manager holds. *)
Theorem execute_persists w profile unit_id :
  let w' := (GenerateReportAction.execute profile unit_id w).2 in
  (writable w (log_file_path (log_manager w)) → persisted w') ∧
  (∀ path, path ≠ log_file_path (log_manager w) →
           files w' !! path = files w !! path) ∧
  log_file_path (log_manager w') = log_file_path (log_manager w) ∧
  ∃ new, logs (log_manager w') = logs (log_manager w) ++ new ∧
         (1 ≤ length new ≤ 2)%nat.
Proof.
  intros w'. subst w'.
  destruct (GenerateReportAction.can_execute profile unit_id) eqn:Hcan;
    [destruct (stdout w) as [out|] eqn:Hout|].
  - rewrite (execute_allowed w profile unit_id out Hcan Hout).
    destruct (log_write_fault w) as [e|] eqn:Hf; split_and!.
    + intros Hw. unfold log_write_fault in Hf. congruence.
    + intros path Hpath. cbn [snd].
      rewrite !after_logging_other_files; done.
    + done.
    + eexists [_; _]. split; [simpl; by rewrite <- app_assoc|simpl; lia].
    + intros Hw. by apply (after_logging_persisted (set_stdout _ w)).
    + intros path Hpath. cbn [snd].
      rewrite after_logging_other_files; done.
    + done.
    + eexists [_]. split; [done|simpl; lia].
  - rewrite (execute_body_fault w profile unit_id Hcan Hout). split_and!.
    + intros Hw. by apply after_logging_persisted.
    + intros path Hpath. cbn [snd]. by rewrite after_logging_other_files.
    + done.
    + eexists [_]. split; [done|simpl; lia].
  - rewrite (execute_denied w profile unit_id Hcan). split_and!.
    + intros Hw. by apply (after_logging_persisted (after_logging _ _ _ _ _)).
    + intros path Hpath. cbn [snd].
      rewrite !after_logging_other_files; done.
    + done.
    + eexists [_; _]. split; [simpl; by rewrite <- app_assoc|simpl; lia].
Qed.

(** X20: if the log file can be written and the entries in the log and
    the next two readings of the clock are datetime objects, then after
    [execute], on any path, a new manager built on the same path loads
    exactly the log the running manager holds: the restart leaves the
    world as it is. *)
Theorem execute_then_restart w profile unit_id :
  writable w (log_file_path (log_manager w)) →
  well_formed (logs (log_manager w)) →
  Datetime.valid (clock w (clock_reads w)) = true →
  Datetime.valid (clock w (S (clock_reads w))) = true →
  let w' := (GenerateReportAction.execute profile unit_id w).2 in
  LogManager.init (log_file_path (log_manager w)) w' = (Returned tt, w').
Proof.
  intros Hw Hl Hnow Hnext w'. subst w'.
  assert (∀ w1, log_file_path (log_manager w1) = log_file_path (log_manager w) →
                persisted w1 → well_formed (logs (log_manager w1)) →
                LogManager.init (log_file_path (log_manager w)) w1
                = (Returned tt, w1)) as Hrestart.
  { intros w1 <-. apply restart_persisted. }
  destruct (GenerateReportAction.can_execute profile unit_id) eqn:Hcan;
    [destruct (stdout w) as [out|] eqn:Hout|].
  - rewrite (execute_allowed_written w profile unit_id out Hcan Hout Hw).
    apply Hrestart;
      [done|by apply (after_logging_persisted (set_stdout _ w))|]. simpl.
    apply Forall_app. split; [done|]. by repeat constructor.
  - rewrite (execute_body_fault_written w profile unit_id Hcan Hout Hw).
    apply Hrestart; [done|by apply after_logging_persisted|]. simpl.
    apply Forall_app. split; [done|]. by repeat constructor.
  - rewrite (execute_denied_written w profile unit_id Hcan Hw).
    apply Hrestart;
      [done|by apply (after_logging_persisted (after_logging _ _ _ _ _))|].
    simpl.
    apply Forall_app. split; [apply Forall_app; split; [done|]|];
      by repeat constructor.
Qed.

Lemma execute_then_restart_witness :
  let w' := (GenerateReportAction.execute Demo.admin2 (Some "UNIT1")
               Demo.world).2 in
  LogManager.init "operation_logs.json" w' = (Returned tt, w').
Proof.
  apply (execute_then_restart Demo.world Demo.admin2 (Some "UNIT1"));
    [reflexivity|constructor|reflexivity|reflexivity].
Defined.

(** Every id in the log was drawn from [uuid4], and no two entries
    share an id. *)
Definition ids_drawn w : Prop :=
  NoDup (OperationLog.id <$> logs (log_manager w)) ∧
  ∀ entry, entry ∈ logs (log_manager w) →
           ∃ n, (n < uuid_calls w)%nat ∧ uuids w n = OperationLog.id entry.

(** The [k]-th value of [uuid4] differs from all earlier ones. *)
Definition fresh_at w (k : nat) : Prop :=
  ∀ n, (n < k)%nat → uuids w n ≠ uuids w k.

Lemma ids_drawn_after_logging w profile unit_id status details :
  fresh_at w (uuid_calls w) → ids_drawn w →
  ids_drawn (after_logging w profile unit_id status details).
Proof.
  intros Hfresh [Hnd Hdrawn]. split; simpl.
  - rewrite fmap_app. apply NoDup_app. split_and!; [done| |apply NoDup_singleton].
    intros id (entry & -> & Hentry)%list_elem_of_fmap Hin.
    apply list_elem_of_singleton in Hin.
    destruct (Hdrawn entry Hentry) as (n & Hn & Hid).
    apply (Hfresh n Hn). simpl in Hin. congruence.
  - intros entry [Hentry|Hentry]%elem_of_app.
    + destruct (Hdrawn entry Hentry) as (n & Hn & Hid). exists n. split; [lia|done].
    + apply list_elem_of_singleton in Hentry as ->.
      exists (uuid_calls w). split; [lia|done].
Qed.

(** X21: if no two entries of the log share an id, all ids were drawn
    from [uuid4], and the next two values [uuid4] returns are new, then
    the same holds of the log after [execute], on every path: each entry
    gets an id of its own draw. *)
Theorem execute_keeps_ids_unique w profile unit_id :
  fresh_at w (uuid_calls w) → fresh_at w (S (uuid_calls w)) →
  ids_drawn w →
  ids_drawn (GenerateReportAction.execute profile unit_id w).2.
Proof.
  intros H0 H1 Hids.
  destruct (GenerateReportAction.can_execute profile unit_id) eqn:Hcan;
    [destruct (stdout w) as [out|] eqn:Hout|].
  - rewrite (execute_allowed w profile unit_id out Hcan Hout).
    destruct (log_write_fault w); cbn [snd].
    + apply ids_drawn_after_logging; [exact H1|].
      by apply (ids_drawn_after_logging (set_stdout _ w)).
    + by apply (ids_drawn_after_logging (set_stdout _ w)).
  - rewrite (execute_body_fault w profile unit_id Hcan Hout). cbn [snd].
    by apply ids_drawn_after_logging.
  - rewrite (execute_denied w profile unit_id Hcan). cbn [snd].
    apply ids_drawn_after_logging; [exact H1|].
    by apply ids_drawn_after_logging.
Qed.

Lemma execute_keeps_ids_unique_witness :
  ids_drawn (GenerateReportAction.execute Demo.admin2 (Some "UNIT1")
               Demo.world).2.
Proof.
  apply (execute_keeps_ids_unique Demo.world Demo.admin2 (Some "UNIT1")).
  - intros n Hn. simpl in Hn. lia.
  - intros [|n] Hn; [done|]. simpl in Hn. lia.
  - split; simpl; [constructor|]. intros entry Hentry.
    by apply elem_of_nil in Hentry.
Defined.




End gate_effects.

(** ** The demo run *)

Section demo_run.

Implicit Types (w : World).

Lemma bind_run {A B} (m : M A) (f : A → M B) w (a : A) w' :
  m w = (Returned a, w') → (m ≫= f) w = f a w'.
Proof. intros H. unfold mbind, M_bind. by rewrite H. Qed.

Lemma bind_run_raised {A B} (m : M A) (f : A → M B) w (e : exn) w' :
  m w = (Raised e, w') → (m ≫= f) w = (Raised e, w').
Proof. intros H. unfold mbind, M_bind. by rewrite H. Qed.

(** What [main] does once the log manager is built. *)
Definition after_init : M unit :=
  Main.try_except_PermissionError
    (GenerateReportAction.execute Demo.admin1 (Some "UNIT1");;
     GenerateReportAction.execute Demo.admin2 (Some "UNIT1"))
    (λ e, print ("Permission denied: " +:+ str e));;
  print (Main.nl +:+ "Recent Operations:");;
  recent ← gets (λ w, Main.last5 (logs (log_manager w)));
  Main.for_each recent (λ log, print (Main.show_log log)).

Lemma main_unfold :
  Main.main = (LogManager.init "operation_logs.json";; after_init).
Proof. reflexivity. Qed.


(** The profiles of [main] are permitted, respectively denied. *)
Lemma admin1_permitted :
  GenerateReportAction.can_execute Demo.admin1 (Some "UNIT1") = true.
Proof. reflexivity. Qed.




(** X23: when the store loads, the log file can be written and the
    console is closed, [main] ends with the body's [ValueError]: its
    handler takes [PermissionError] only.  The first call has logged one
    ERROR entry for ADM001, and the second call is never made. *)
Theorem main_uncaught_fault w w0 :
  LogManager.init "operation_logs.json" w = (Returned tt, w0) →
  stdout w0 = None →
  writable w0 (log_file_path (log_manager w0)) →
  ∃ w' entry,
    Main.main w = (Raised (ValueError "I/O operation on closed file."), w') ∧
    logs (log_manager w') = logs (log_manager w0) ++ [entry] ∧
    OperationLog.status entry = "ERROR" ∧
    OperationLog.operator_code entry = "ADM001" ∧
    OperationLog.details entry = Some "I/O operation on closed file." ∧
    stdout w' = None.
Proof.
  intros Hinit Hout Hw. rewrite main_unfold.
  rewrite (bind_run _ _ _ _ _ Hinit). unfold after_init.
  pose proof (execute_body_fault_written w0 Demo.admin1 (Some "UNIT1")
                admin1_permitted Hout Hw) as H1.
  eexists _, _. split_and!.
  - apply bind_run_raised.
    unfold Main.try_except_PermissionError, try_except.
    rewrite (bind_run_raised _ _ _ _ _ H1). reflexivity.
  - reflexivity.
  - reflexivity.
  - reflexivity.
  - reflexivity.
  - exact Hout.
Qed.

Lemma main_uncaught_fault_witness :
  ∃ w' entry,
    Main.main (set_stdout None Demo.world)
    = (Raised (ValueError "I/O operation on closed file."), w') ∧
    logs (log_manager w') = [] ++ [entry] ∧
    OperationLog.status entry = "ERROR" ∧
    OperationLog.operator_code entry = "ADM001" ∧
    OperationLog.details entry = Some "I/O operation on closed file." ∧
    stdout w' = None.
Proof.
  apply (main_uncaught_fault (set_stdout None Demo.world)
           (set_stdout None Demo.world)); reflexivity.
Defined.



End demo_run.
